(** * Crux: the interactive graph component (GraphVisualization.tsx)

    A shallow embedding of [src/frontend/components/graph/GraphVisualization.tsx]:
    the element mapping handed to the graph library, the tap handlers that
    mark elements [highlighted] / [faded], the viewport buttons and the
    reset button, followed by the properties of the selection state machine.

    JavaScript numbers are IEEE binary64 values ([float]); strings are
    [string]; the element store of the graph library is a finite map from
    element ids to elements, and a collection is a finite set of ids.

    The component is modelled for one mount with fixed props: the effect of
    lines 50-248 runs once, then events arrive.  Node positions, animation
    and drawing are outside the model; a layout run is only recorded. *)

From Stdlib Require Import ZArith Floats Ascii String List Bool.
From stdpp Require Import gmap strings list fin_maps fin_sets.

Set Warnings "-inexact-float".
Local Open Scope string_scope.

(** ** JavaScript strings *)

Module Js.

(** [String.prototype.toLowerCase], on the ASCII letters (other
    characters are left as they are). *)
Definition lowerChar (c : ascii) : ascii :=
  let n := nat_of_ascii c in
  if (65 <=? n)%nat && (n <=? 90)%nat then ascii_of_nat (n + 32) else c.

Fixpoint toLowerCase (s : string) : string :=
  match s with
  | EmptyString => EmptyString
  | String c r => String (lowerChar c) (toLowerCase r)
  end.

(** The ASCII characters matched by the regular expression [\s]. *)
Definition isSpace (c : ascii) : bool :=
  let n := nat_of_ascii c in
  ((9 <=? n)%nat && (n <=? 13)%nat) || (n =? 32)%nat.

(** [s.split(/\s+/)] without the empty pieces: the way the graph
    library reads a string of class names.  [cur] is the word being
    read, reversed. *)
Fixpoint wordsFrom (cur : list ascii) (s : string) : list string :=
  let flush rest :=
    match cur with
    | [] => rest
    | _ => string_of_list_ascii (rev cur) :: rest
    end in
  match s with
  | EmptyString => flush []
  | String c r =>
      if isSpace c then flush (wordsFrom [] r) else wordsFrom (c :: cur) r
  end.

Definition words (s : string) : list string := wordsFrom [] s.

(** What a handler or an effect can throw. *)
Inductive Exn : Type :=
| TypeError (msg : string).

Definition result (A : Type) : Type := Exn + A.

Definition bind {A B : Type} (m : result A) (k : A -> result B) : result B :=
  match m with
  | inl e => inl e
  | inr a => k a
  end.

(** [xs.map(f)] where [f] may throw: the first exception escapes. *)
Fixpoint mapM {A B : Type} (f : A -> result B) (xs : list A) : result (list B) :=
  match xs with
  | [] => inr []
  | x :: r => bind (f x) (fun y => bind (mapM f r) (fun ys => inr (y :: ys)))
  end.

End Js.

(** ** Input data (lines 15-38) *)

(** [GraphNode.data].  [type] is declared [string]; [None] stands for an
    object that reaches the component without the field. *)
Record NodeData := {
  nd_id : string;
  nd_label : string;
  nd_type : option string;
  nd_attrs : list (string * string)
}.

Record EdgeData := {
  ed_source : string;
  ed_target : string;
  ed_relationship : string;
  ed_attrs : list (string * string)
}.

Record GraphNode := { n_data : NodeData }.
Record GraphEdge := { e_data : EdgeData }.

(** [onNodeClick] is an optional callback: [true] when the host passed one. *)
Record GraphVisualizationProps := {
  nodes : list GraphNode;
  edges : list GraphEdge;
  onNodeClick : bool;
  interactive : bool
}.

#[global] Instance NodeData_eq_dec : EqDecision NodeData.
Proof. solve_decision. Defined.
#[global] Instance EdgeData_eq_dec : EqDecision EdgeData.
Proof. solve_decision. Defined.

(** ** The element mapping (lines 56-64) *)

Record NodeDef := { def_data : NodeData; def_classes : string }.
Record EdgeDef := { edef_data : EdgeData }.
Record ElementsDef := { def_nodes : list NodeDef; def_edges : list EdgeDef }.

(** [n => ({ data: n.data, classes: n.data.type.toLowerCase() })]:
    calling a method on [undefined] throws. *)
Definition nodeDef (n : GraphNode) : Js.result NodeDef :=
  match nd_type (n_data n) with
  | Some t => inr {| def_data := n_data n; def_classes := Js.toLowerCase t |}
  | None => inl (Js.TypeError "Cannot read properties of undefined (reading 'toLowerCase')")
  end.

(** [e => ({ data: e.data })] *)
Definition edgeDef (e : GraphEdge) : EdgeDef := {| edef_data := e_data e |}.

Definition elementsOf (ns : list GraphNode) (es : list GraphEdge) : Js.result ElementsDef :=
  Js.bind (Js.mapM nodeDef ns) (fun nds =>
  inr {| def_nodes := nds; def_edges := map edgeDef es |}).

(** ** The graph library (cytoscape), as far as the component uses it

    The library is third-party code; its operations are modelled from
    their documented behaviour.  An element is a node or an edge with its
    data and a set of classes; the instance keeps them in a map by id. *)

(** Element ids.  A node is stored under its [data.id].  [GraphEdge]
    declares no id, so the library gives every edge a fresh one: its
    position in the input list stands for it. *)
Inductive EleId : Type :=
| NodeId (id : string)
| EdgeId (k : nat).

#[global] Instance EleId_eq_dec : EqDecision EleId.
Proof. solve_decision. Defined.

#[global] Instance EleId_countable : Countable EleId.
Proof.
  refine (inj_countable'
    (fun x => match x with NodeId s => inl s | EdgeId k => inr k end)
    (fun y => match y with inl s => NodeId s | inr k => EdgeId k end) _).
  intros []; reflexivity.
Defined.

Module Cy.

Inductive EleData : Type :=
| NodeD (d : NodeData)
| EdgeD (d : EdgeData).

Record Ele := { ele_data : EleData; ele_classes : gset string }.

Abbreviation Elements := (gmap EleId Ele).
Abbreviation Collection := (gset EleId).

Definition isNode (e : Ele) : bool :=
  match ele_data e with NodeD _ => true | EdgeD _ => false end.

(** A class-name argument such as ['highlighted faded'] names every word in it. *)
Definition classSet (cls : string) : gset string := list_to_set (Js.words cls).

(** Adding a node: a second element with an id already in use is
    rejected (logged, not thrown) and the first one stays. *)
Definition addNode (m : Elements) (d : NodeDef) : Elements :=
  let k := NodeId (nd_id (def_data d)) in
  match m !! k with
  | Some _ => m
  | None => <[k := {| ele_data := NodeD (def_data d);
                      ele_classes := classSet (def_classes d) |}]> m
  end.

Definition hasNode (m : Elements) (id : string) : bool :=
  match m !! NodeId id with
  | Some e => isNode e
  | None => false
  end.

(** Adding an edge: an edge whose source or target is not a node of the
    instance is rejected (logged, not thrown) and left out. *)
Definition addEdge (m : Elements) (kd : nat * EdgeDef) : Elements :=
  let d := edef_data (snd kd) in
  if hasNode m (ed_source d) && hasNode m (ed_target d)
  then <[EdgeId (fst kd) := {| ele_data := EdgeD d; ele_classes := ∅ |}]> m
  else m.

(** [elements: { nodes, edges }]: the nodes are created first, then the edges. *)
Definition createElements (defs : ElementsDef) : Elements :=
  let withNodes := fold_left addNode (def_nodes defs) ∅ in
  fold_left addEdge (imap (fun k d => (k, d)) (def_edges defs)) withNodes.

(** [cy.elements()] *)
Definition elements (m : Elements) : Collection := dom m.

(** [coll.not(other)] *)
Definition not (coll other : Collection) : Collection := coll ∖ other.

(** Is the edge [d] attached to the node [n]? *)
Definition touches (n : string) (d : EleData) : bool :=
  match d with
  | EdgeD e => bool_decide (ed_source e = n) || bool_decide (ed_target e = n)
  | NodeD _ => false
  end.

(** [node.connectedEdges()]: the edges with [node] as source or target. *)
Definition connectedEdges (m : Elements) (n : string) : Collection :=
  dom (filter (fun kv => touches n (ele_data (snd kv)) = true) m).

(** The two ends of the element stored under [k] when it is an edge. *)
Definition endpoints (m : Elements) (k : EleId) : Collection :=
  match ele_data <$> m !! k with
  | Some (EdgeD e) => {[NodeId (ed_source e); NodeId (ed_target e)]}
  | _ => ∅
  end.

(** [edges.connectedNodes()]: the nodes the given edges are attached to. *)
Definition connectedNodes (m : Elements) (es : Collection) : Collection :=
  set_bind (endpoints m) es ∩ dom m.

(** [coll.removeClass(cls)] *)
Definition removeClass (coll : Collection) (cls : string) (m : Elements) : Elements :=
  map_imap (fun k e =>
    Some (if decide (k ∈ coll)
          then {| ele_data := ele_data e; ele_classes := ele_classes e ∖ classSet cls |}
          else e)) m.

(** [coll.addClass(cls)] *)
Definition addClass (coll : Collection) (cls : string) (m : Elements) : Elements :=
  map_imap (fun k e =>
    Some (if decide (k ∈ coll)
          then {| ele_data := ele_data e; ele_classes := ele_classes e ∪ classSet cls |}
          else e)) m.

(** The elements carrying the class [c] (what the selector [.c] matches). *)
Definition withClass (c : string) (m : Elements) : Collection :=
  dom (filter (fun kv => c ∈ ele_classes (snd kv)) m).

(** *** Viewport *)

Definition Pan : Type := float * float.

(** What the renderer knows about the drawing: the pan that centres the
    graph at a given zoom, and the zoom at which the graph fits the
    container with a given padding ([None] when the container or the
    bounding box has no extent).  Both depend on node positions, which are
    not modelled. *)
Record Renderer := {
  centerPan : float -> Pan;
  fitZoom : float -> option float
}.

Record Core := {
  cy_elements : Elements;
  cy_zoom : float;
  cy_pan : Pan;
  minZoom : float;
  maxZoom : float;
  cy_renderer : Renderer
}.

Definition setElements (m : Elements) (cy : Core) : Core :=
  {| cy_elements := m; cy_zoom := cy_zoom cy; cy_pan := cy_pan cy;
     minZoom := minZoom cy; maxZoom := maxZoom cy; cy_renderer := cy_renderer cy |}.

Definition setViewport (z : float) (p : Pan) (cy : Core) : Core :=
  {| cy_elements := cy_elements cy; cy_zoom := z; cy_pan := p;
     minZoom := minZoom cy; maxZoom := maxZoom cy; cy_renderer := cy_renderer cy |}.

(** The library's number test: a number that is not NaN. *)
Definition isNumber (x : float) : bool := negb (PrimFloat.is_nan x).

(** Modelled from the spec: the body of the library's zoom setter is not
    part of the repository; "zoom factor is clamped to a configured
    [min, max] range - operations that would exceed the range clamp
    rather than error".  The upper bound is applied first. *)
Definition cropZoom (lo hi z : float) : float :=
  let z1 := if (hi <? z)%float then hi else z in
  if (z1 <? lo)%float then lo else z1.

(** [cy.zoom()] *)
Definition getZoom (cy : Core) : float := cy_zoom cy.

(** [cy.zoom(level)]: a level that is not a number is ignored; the pan
    stays as it is. *)
Definition zoom (level : float) (cy : Core) : Core :=
  if isNumber level
  then setViewport (cropZoom (minZoom cy) (maxZoom cy) level) (cy_pan cy) cy
  else cy.

(** [cy.center()]: pan so that the graph is centred at the current zoom. *)
Definition center (cy : Core) : Core :=
  setViewport (cy_zoom cy) (centerPan (cy_renderer cy) (cy_zoom cy)) cy.

(** [cy.fit(undefined, padding)]: zoom (within the bounds) and pan so
    that every element is visible; nothing happens when there is nothing
    to fit to. *)
Definition fit (padding : float) (cy : Core) : Core :=
  match fitZoom (cy_renderer cy) padding with
  | Some z =>
      let z' := cropZoom (minZoom cy) (maxZoom cy) z in
      setViewport z' (centerPan (cy_renderer cy) z') cy
  | None => cy
  end.

End Cy.

(** ** The component (lines 40-385) *)

(** What the component sends out: a call of the host's [onNodeClick], or a
    layout run requested from the library ([randomize] as passed). *)
Inductive Effect : Type :=
| NodeClick (nodeId : string) (nodeData : NodeData)
| LayoutRun (randomize : bool).

(** The mutable state: the ref to the graph instance, the React state
    [selectedNode], the pointer shape set on the document body, and the
    effects sent out so far, oldest first. *)
Record State := {
  cyRef : option Cy.Core;
  selectedNode : option NodeData;
  cursor : string;
  emitted : list Effect
}.

Definition initialState : State :=
  {| cyRef := None; selectedNode := None; cursor := ""; emitted := [] |}.

Definition setCy (cy : Cy.Core) (s : State) : State :=
  {| cyRef := Some cy; selectedNode := selectedNode s;
     cursor := cursor s; emitted := emitted s |}.

Definition setSelectedNode (d : option NodeData) (s : State) : State :=
  {| cyRef := cyRef s; selectedNode := d; cursor := cursor s; emitted := emitted s |}.

Definition setCursor (c : string) (s : State) : State :=
  {| cyRef := cyRef s; selectedNode := selectedNode s; cursor := c; emitted := emitted s |}.

Definition emit (e : Effect) (s : State) : State :=
  {| cyRef := cyRef s; selectedNode := selectedNode s;
     cursor := cursor s; emitted := emitted s ++ [e] |}.

(** The effect of lines 50-201.  [containerRef] is the renderer behind
    the container element, [None] while there is no element.  With no
    container or no nodes the effect returns at once; otherwise the
    elements are mapped (which may throw), the instance is created with
    zoom 1 and pan (0, 0), the layout of the options is run, and the
    instance is stored in the ref. *)
Definition mount (containerRef : option Cy.Renderer) (p : GraphVisualizationProps)
  : Js.result State :=
  match containerRef with
  | None => inr initialState
  | Some r =>
      if (length (nodes p) =? 0)%nat then inr initialState
      else
        Js.bind (elementsOf (nodes p) (edges p)) (fun defs =>
        let cy := {| Cy.cy_elements := Cy.createElements defs;
                     Cy.cy_zoom := 1%float;
                     Cy.cy_pan := (0%float, 0%float);
                     Cy.minZoom := 0.3%float;
                     Cy.maxZoom := 3%float;
                     Cy.cy_renderer := r |} in
        inr (setCy cy (emit (LayoutRun true) initialState)))
  end.

(** [cy.on('tap', 'node', ...)], lines 205-223; [n] is the id of the
    tapped node.  The library raises the event on nodes of the instance
    only. *)
Definition onTapNode (p : GraphVisualizationProps) (n : string) (s : State) : State :=
  match cyRef s with
  | None => s
  | Some cy =>
      match Cy.ele_data <$> Cy.cy_elements cy !! NodeId n with
      | Some (Cy.NodeD nodeData) =>
          let s1 := setSelectedNode (Some nodeData) s in
          let s2 := if onNodeClick p
                    then emit (NodeClick (nd_id nodeData) nodeData) s1 else s1 in
          let m0 := Cy.cy_elements cy in
          let m1 := Cy.removeClass (Cy.elements m0) "highlighted faded" m0 in
          let connectedEdges := Cy.connectedEdges m1 n in
          let connectedNodes := Cy.connectedNodes m1 connectedEdges in
          let m2 := Cy.addClass
                      (Cy.not (Cy.not (Cy.not (Cy.elements m1) {[NodeId n]})
                                      connectedNodes) connectedEdges)
                      "faded" m1 in
          let m3 := Cy.addClass connectedEdges "highlighted" m2 in
          let m4 := Cy.addClass connectedNodes "highlighted" m3 in
          setCy (Cy.setElements m4 cy) s2
      | _ => s
      end
  end.

(** Where a pointer event lands: on the background ([evt.target === cy])
    or on an element. *)
Inductive Target : Type :=
| OnCore
| OnElement (k : EleId).

(** [cy.on('tap', ...)], lines 225-230. *)
Definition onTap (t : Target) (s : State) : State :=
  match cyRef s, t with
  | Some cy, OnCore =>
      let m := Cy.cy_elements cy in
      setSelectedNode None
        (setCy (Cy.setElements (Cy.removeClass (Cy.elements m) "highlighted faded" m) cy) s)
  | _, _ => s
  end.

(** [cy.on('mouseover', 'node', ...)], lines 233-238. *)
Definition onMouseOver (n : string) (s : State) : State :=
  match cyRef s with
  | Some cy =>
      match Cy.cy_elements cy !! NodeId n with
      | Some e =>
          if Cy.isNode e && negb (bool_decide ("faded" ∈ Cy.ele_classes e))
          then setCursor "pointer" s else s
      | None => s
      end
  | None => s
  end.

(** [cy.on('mouseout', 'node', ...)], lines 240-242. *)
Definition onMouseOut (n : string) (s : State) : State :=
  match cyRef s with
  | Some cy => if Cy.hasNode (Cy.cy_elements cy) n then setCursor "default" s else s
  | None => s
  end.

(** Lines 250-255. *)
Definition handleZoomIn (s : State) : State :=
  match cyRef s with
  | Some cy => setCy (Cy.center (Cy.zoom (Cy.getZoom cy * 1.2)%float cy)) s
  | None => s
  end.

(** Lines 257-262. *)
Definition handleZoomOut (s : State) : State :=
  match cyRef s with
  | Some cy => setCy (Cy.center (Cy.zoom (Cy.getZoom cy * 0.8)%float cy)) s
  | None => s
  end.

(** Lines 264-268. *)
Definition handleFit (s : State) : State :=
  match cyRef s with
  | Some cy => setCy (Cy.fit 50%float cy) s
  | None => s
  end.

(** Lines 270-281. *)
Definition handleReset (s : State) : State :=
  match cyRef s with
  | Some cy =>
      let m := Cy.cy_elements cy in
      let cy' := Cy.setElements (Cy.removeClass (Cy.elements m) "highlighted faded" m) cy in
      setSelectedNode None (emit (LayoutRun true) (setCy cy' s))
  | None => s
  end.

(** What the component draws besides the graph itself (lines 283-384). *)
Record View := {
  controls : bool;
  tooltip : option NodeData;
  emptyState : bool
}.

Definition render (p : GraphVisualizationProps) (s : State) : View :=
  {| controls := interactive p;
     tooltip := selectedNode s;
     emptyState := (length (nodes p) =? 0)%nat |}.

(** ** Events *)

Inductive Event : Type :=
| Tap (t : Target)
| MouseOver (n : string)
| MouseOut (n : string)
| ClickZoomIn
| ClickZoomOut
| ClickFit
| ClickReset.

(** A tap on a node runs the node listener, then the general one; a tap
    elsewhere runs the general one only. *)
Definition dispatchTap (p : GraphVisualizationProps) (t : Target) (s : State) : State :=
  match t with
  | OnElement (NodeId n) => onTap t (onTapNode p n s)
  | _ => onTap t s
  end.

(** The listeners are registered and the buttons drawn only when
    [interactive] is set. *)
Definition step (p : GraphVisualizationProps) (s : State) (ev : Event) : State :=
  if interactive p then
    match ev with
    | Tap t => dispatchTap p t s
    | MouseOver n => onMouseOver n s
    | MouseOut n => onMouseOut n s
    | ClickZoomIn => handleZoomIn s
    | ClickZoomOut => handleZoomOut s
    | ClickFit => handleFit s
    | ClickReset => handleReset s
    end
  else s.

Definition run (p : GraphVisualizationProps) (evs : list Event) (s : State) : State :=
  fold_left (step p) evs s.

(** ** RenderState (spec section 3), read off the component state *)

Record RenderState := {
  selectedNodeId : option string;
  highlightedElementIds : gset EleId;
  fadedElementIds : gset EleId
}.

Definition highlighted (s : State) : gset EleId :=
  match cyRef s with
  | Some cy => Cy.withClass "highlighted" (Cy.cy_elements cy)
  | None => ∅
  end.

Definition faded (s : State) : gset EleId :=
  match cyRef s with
  | Some cy => Cy.withClass "faded" (Cy.cy_elements cy)
  | None => ∅
  end.

Definition allElements (s : State) : gset EleId :=
  match cyRef s with
  | Some cy => Cy.elements (Cy.cy_elements cy)
  | None => ∅
  end.

Definition renderState (s : State) : RenderState :=
  {| selectedNodeId := nd_id <$> selectedNode s;
     highlightedElementIds := highlighted s;
     fadedElementIds := faded s |}.

Definition Idle : RenderState :=
  {| selectedNodeId := None; highlightedElementIds := ∅; fadedElementIds := ∅ |}.

(** The edges touching [n] and the nodes those edges touch. *)
Definition incidentEdges (s : State) (n : string) : gset EleId :=
  match cyRef s with
  | Some cy => Cy.connectedEdges (Cy.cy_elements cy) n
  | None => ∅
  end.

Definition neighbors (s : State) (n : string) : gset EleId :=
  match cyRef s with
  | Some cy => Cy.connectedNodes (Cy.cy_elements cy) (Cy.connectedEdges (Cy.cy_elements cy) n)
  | None => ∅
  end.

Definition isNodeOf (s : State) (n : string) : bool :=
  match cyRef s with
  | Some cy => Cy.hasNode (Cy.cy_elements cy) n
  | None => false
  end.

(** The viewport: zoom factor and pan. *)
Definition viewport (s : State) : option (float * Cy.Pan) :=
  (fun cy => (Cy.cy_zoom cy, Cy.cy_pan cy)) <$> cyRef s.

(** ** The graph of spec section 8: A(User), B(Project), C(Skill), A->B, B->C *)

Definition mkNode (id ty : string) : GraphNode :=
  {| n_data := {| nd_id := id; nd_label := id; nd_type := Some ty; nd_attrs := [] |} |}.

Definition mkEdge (src tgt : string) : GraphEdge :=
  {| e_data := {| ed_source := src; ed_target := tgt;
                  ed_relationship := "rel"; ed_attrs := [] |} |}.

Definition propsOf (ns : list GraphNode) (es : list GraphEdge) : GraphVisualizationProps :=
  {| nodes := ns; edges := es; onNodeClick := true; interactive := true |}.

Definition abcProps : GraphVisualizationProps :=
  propsOf [mkNode "A" "User"; mkNode "B" "Project"; mkNode "C" "Skill"]
          [mkEdge "A" "B"; mkEdge "B" "C"].

(** A renderer for the examples: the graph is centred with pan (0, 0)
    and fits the container at zoom 2. *)
Definition flatRenderer : Cy.Renderer :=
  {| Cy.centerPan := fun _ => (0%float, 0%float);
     Cy.fitZoom := fun _ => Some 2%float |}.

Definition stateOf (r : Js.result State) : State :=
  match r with
  | inr s => s
  | inl _ => initialState
  end.

Definition abcState : State := stateOf (mount (Some flatRenderer) abcProps).

(** ** Notions used in the statements *)

(** [lo <= z <= hi] on numbers. *)
Definition inRange (lo hi z : float) : bool := ((lo <=? z) && (z <=? hi))%float.

(** Two element stores hold the same graph: the same elements with the
    same data, whatever their classes. *)
Definition sameData (m m' : gmap EleId Cy.Ele) : Prop :=
  ∀ k, Cy.ele_data <$> m !! k = Cy.ele_data <$> m' !! k.

(** The element store after the class operations of lines 215-222 for a
    tap on the node [n]. *)
Definition tapElements (m : gmap EleId Cy.Ele) (n : string) : gmap EleId Cy.Ele :=
  let m1 := Cy.removeClass (Cy.elements m) "highlighted faded" m in
  let connectedEdges := Cy.connectedEdges m1 n in
  let connectedNodes := Cy.connectedNodes m1 connectedEdges in
  let m2 := Cy.addClass
              (Cy.not (Cy.not (Cy.not (Cy.elements m1) {[NodeId n]})
                              connectedNodes) connectedEdges)
              "faded" m1 in
  let m3 := Cy.addClass connectedEdges "highlighted" m2 in
  Cy.addClass connectedNodes "highlighted" m3.

(** The closed neighbourhood of the node [n]. *)
Definition closedNeighborhood (s : State) (n : string) : gset EleId :=
  {[NodeId n]} ∪ incidentEdges s n ∪ neighbors s n.

(** No node type reads, once lower-cased, as one of the two mark classes
    (the types of spec section 3 - User, Project, Skill, Organization,
    Education - do not). *)
Definition noMarkClass (cls : string) : bool :=
  negb (bool_decide ("highlighted" ∈ Cy.classSet cls)) &&
  negb (bool_decide ("faded" ∈ Cy.classSet cls)).

Definition noMarkTypes (ns : list GraphNode) : bool :=
  forallb (fun n => match nd_type (n_data n) with
                    | Some t => noMarkClass (Js.toLowerCase t)
                    | None => true
                    end) ns.

(** The events that leave the zoom factor to [zoomIn] and [zoomOut]:
    every event but a click on the fit button. *)
Definition notFit (ev : Event) : bool :=
  match ev with ClickFit => false | _ => true end.

(** Every element is stored under its own id: a node under its
    [data.id], an edge under an edge id. *)
Definition storeWf (m : gmap EleId Cy.Ele) : Prop :=
  ∀ k e, m !! k = Some e →
    match k with
    | NodeId n => ∃ d, Cy.ele_data e = Cy.NodeD d ∧ nd_id d = n
    | EdgeId _ => ∃ d, Cy.ele_data e = Cy.EdgeD d
    end.

(** No element carries a mark class. *)
Definition unmarked (m : gmap EleId Cy.Ele) : Prop :=
  ∀ k e, m !! k = Some e →
    ("highlighted" ∉ Cy.ele_classes e) ∧ ("faded" ∉ Cy.ele_classes e).

(** What the tap handlers and the reset keep true of a mounted component:
    with no instance nothing is selected; with an instance the marks are
    those of the selected node, or there are none. *)
Definition selectionInv (s : State) : Prop :=
  match cyRef s with
  | None => selectedNode s = None
  | Some cy =>
      storeWf (Cy.cy_elements cy) ∧
      match selectedNode s with
      | None => highlighted s = ∅ ∧ faded s = ∅
      | Some d =>
          isNodeOf s (nd_id d) = true ∧
          highlighted s = incidentEdges s (nd_id d) ∪ neighbors s (nd_id d) ∧
          faded s = allElements s ∖ closedNeighborhood s (nd_id d)
      end
  end.

(** The zoom factor of a mounted component lies within the bounds of
    the options, 0.3 and 3. *)
Definition zoomBounded (s : State) : Prop :=
  match cyRef s with
  | Some cy =>
      Cy.minZoom cy = 0.3%float ∧ Cy.maxZoom cy = 3%float ∧
      inRange 0.3 3 (Cy.cy_zoom cy) = true
  | None => True
  end.

(** The nodes of the instance, before the edges are added. *)
Definition nodeStore (defs : ElementsDef) : gmap EleId Cy.Ele :=
  fold_left Cy.addNode (def_nodes defs) ∅.

(** The element an edge definition becomes, if any, given the nodes
    of the instance. *)
Definition edgeEle (m : gmap EleId Cy.Ele) (d : EdgeDef) : option Cy.Ele :=
  if Cy.hasNode m (ed_source (edef_data d)) && Cy.hasNode m (ed_target (edef_data d))
  then Some {| Cy.ele_data := Cy.EdgeD (edef_data d); Cy.ele_classes := ∅ |}
  else None.

(** Two nodes and no edge. *)
Definition loneProps : GraphVisualizationProps :=
  propsOf [mkNode "A" "User"; mkNode "B" "Project"] [].

Definition loneState : State := stateOf (mount (Some flatRenderer) loneProps).

(** A node that arrives without its [type]. *)
Definition untypedNode : GraphNode :=
  {| n_data := {| nd_id := "X"; nd_label := "X"; nd_type := None; nd_attrs := [] |} |}.

(** The same component with other marks on the elements and another
    selected node (same viewport, bounds and renderer). *)
Definition withSelection (m : gmap EleId Cy.Ele) (d : option NodeData) (s : State) : State :=
  setSelectedNode d
    match cyRef s with
    | Some cy => setCy (Cy.setElements m cy) s
    | None => s
    end.

(** Every node of the store carries the data of an input node with that id. *)
Definition nodesFrom (ns : list GraphNode) (m : gmap EleId Cy.Ele) : Prop :=
  ∀ n e, m !! NodeId n = Some e →
    ∃ g, g ∈ ns ∧ Cy.ele_data e = Cy.NodeD (n_data g) ∧ nd_id (n_data g) = n.

(** ** The pages that show the graph

    [app/dashboard/page.tsx] (lines 1043-1047) and the profile page
    (lines 396-400 of its file) draw the component with
    [nodes={graphData?.nodes || []}], [edges={graphData?.edges || []}],
    [interactive={true}] and no [onNodeClick]; [graphData] is [null] until
    the response has arrived. *)
Record GraphData := {
  gd_nodes : option (list GraphNode);
  gd_edges : option (list GraphEdge)
}.

Definition pageProps (graphData : option GraphData) : GraphVisualizationProps :=
  {| nodes := default [] (graphData ≫= gd_nodes);
     edges := default [] (graphData ≫= gd_edges);
     onNodeClick := false;
     interactive := true |}.

(** The counters of the profile page (lines 416-432 of its file):
    [graphData?.nodes?.filter(n => n.data.type === ty).length || 0]. *)
Definition countType (ty : string) (graphData : option GraphData) : nat :=
  match graphData ≫= gd_nodes with
  | Some ns => List.length (filter (fun n => nd_type (n_data n) = Some ty) ns)
  | None => 0
  end.

(** A string without white space. *)
Definition noSpace (s : string) : bool :=
  forallb (fun c => negb (Js.isSpace c)) (list_ascii_of_string s).

Definition isLayoutRun (e : Effect) : bool :=
  match e with LayoutRun _ => true | NodeClick _ _ => false end.

(** * Properties *)

Set Warnings "-clear-no-such-hyp".

(** ** Order of numbers *)

Section FloatOrder.

Lemma SFcompare_antisym (a b : spec_float) :
  SFcompare b a = option_map CompOpp (SFcompare a b).
Proof.
  destruct a as [sa| sa | |sa ma ea], b as [sb|sb| |sb mb eb]; simpl;
    try reflexivity; try (destruct sa; reflexivity); try (destruct sb; reflexivity);
    try (destruct sa, sb; reflexivity).
  pose proof (Pos.compare_cont_antisym ma mb Eq) as Hm. simpl in Hm.
  destruct sa, sb; simpl; try reflexivity;
    rewrite (Z.compare_antisym ea eb);
    destruct (ea ?= eb)%Z; simpl; try reflexivity;
    rewrite <- Hm; destruct (Pos.compare_cont Eq ma mb); reflexivity.
Qed.

Lemma SFcompare_refl (a : spec_float) :
  a <> S754_nan -> SFcompare a a = Some Eq.
Proof.
  destruct a as [s|s| |s m e]; simpl; intros H; try congruence.
  - destruct s; reflexivity.
  - destruct s; rewrite Z.compare_refl, Pos.compare_cont_refl; reflexivity.
Qed.

Lemma SFcompare_None (a b : spec_float) :
  SFcompare a b = None -> a = S754_nan \/ b = S754_nan.
Proof.
  destruct a as [s|s| |s m e], b as [s'|s'| |s' m' e']; simpl; intros H;
    try discriminate; auto.
Qed.

Lemma is_nan_false (x : float) : PrimFloat.is_nan x = false <-> Prim2SF x <> S754_nan.
Proof.
  unfold PrimFloat.is_nan. rewrite FloatAxioms.eqb_spec. unfold SFeqb. split.
  - intros H E. rewrite E in H. discriminate.
  - intros H. rewrite SFcompare_refl by exact H. reflexivity.
Qed.

Lemma leb_refl (x : float) : PrimFloat.is_nan x = false -> (x <=? x)%float = true.
Proof.
  intros H. rewrite FloatAxioms.leb_spec. unfold SFleb.
  rewrite SFcompare_refl; [reflexivity | now apply is_nan_false].
Qed.

Lemma leb_is_number (x y : float) :
  (x <=? y)%float = true -> PrimFloat.is_nan x = false /\ PrimFloat.is_nan y = false.
Proof.
  rewrite FloatAxioms.leb_spec. unfold SFleb. intros H.
  split; apply is_nan_false; intros E; rewrite E in H; simpl in H;
    try discriminate.
  destruct (Prim2SF x); discriminate.
Qed.

Lemma leb_of_not_ltb (x y : float) :
  PrimFloat.is_nan x = false -> PrimFloat.is_nan y = false ->
  (y <? x)%float = false -> (x <=? y)%float = true.
Proof.
  intros Hx Hy. rewrite FloatAxioms.ltb_spec, FloatAxioms.leb_spec. unfold SFltb, SFleb.
  rewrite (SFcompare_antisym (Prim2SF x) (Prim2SF y)).
  destruct (SFcompare (Prim2SF x) (Prim2SF y)) as [[]|] eqn:E; simpl;
    try reflexivity; try discriminate.
  apply SFcompare_None in E. apply is_nan_false in Hx, Hy. tauto.
Qed.

Lemma not_ltb_of_leb (x y : float) :
  (x <=? y)%float = true -> (y <? x)%float = false.
Proof.
  rewrite FloatAxioms.ltb_spec, FloatAxioms.leb_spec. unfold SFltb, SFleb.
  rewrite (SFcompare_antisym (Prim2SF x) (Prim2SF y)).
  destruct (SFcompare (Prim2SF x) (Prim2SF y)) as [[]|]; simpl;
    try reflexivity; discriminate.
Qed.

End FloatOrder.

Lemma cropZoom_inRange (lo hi z : float) :
  (lo <=? hi)%float = true -> Cy.isNumber z = true ->
  inRange lo hi (Cy.cropZoom lo hi z) = true.
Proof.
  intros Hlh Hz. unfold Cy.isNumber in Hz. apply negb_true_iff in Hz.
  destruct (leb_is_number _ _ Hlh) as [Hlo Hhi].
  unfold Cy.cropZoom, inRange.
  destruct (hi <? z)%float eqn:E1.
  - rewrite (not_ltb_of_leb _ _ Hlh), Hlh, (leb_refl _ Hhi). reflexivity.
  - destruct (z <? lo)%float eqn:E2.
    + rewrite (leb_refl _ Hlo), Hlh. reflexivity.
    + rewrite (leb_of_not_ltb lo z), (leb_of_not_ltb z hi); auto.
Qed.

(** ** The element store under the class operations *)

Section Store.
Implicit Types (m : gmap EleId Cy.Ele) (k : EleId) (coll : gset EleId) (c cls : string).

Lemma lookup_addClass coll cls m k :
  Cy.addClass coll cls m !! k =
  (fun e => if decide (k ∈ coll)
            then {| Cy.ele_data := Cy.ele_data e;
                    Cy.ele_classes := Cy.ele_classes e ∪ Cy.classSet cls |}
            else e) <$> m !! k.
Proof. unfold Cy.addClass. rewrite map_lookup_imap. by destruct (m !! k). Qed.

Lemma lookup_removeClass coll cls m k :
  Cy.removeClass coll cls m !! k =
  (fun e => if decide (k ∈ coll)
            then {| Cy.ele_data := Cy.ele_data e;
                    Cy.ele_classes := Cy.ele_classes e ∖ Cy.classSet cls |}
            else e) <$> m !! k.
Proof. unfold Cy.removeClass. rewrite map_lookup_imap. by destruct (m !! k). Qed.

Lemma data_addClass coll cls m k :
  Cy.ele_data <$> Cy.addClass coll cls m !! k = Cy.ele_data <$> m !! k.
Proof. rewrite lookup_addClass. destruct (m !! k); simpl; [|done]. by case_decide. Qed.

Lemma data_removeClass coll cls m k :
  Cy.ele_data <$> Cy.removeClass coll cls m !! k = Cy.ele_data <$> m !! k.
Proof. rewrite lookup_removeClass. destruct (m !! k); simpl; [|done]. by case_decide. Qed.

Lemma elem_of_withClass c m k :
  k ∈ Cy.withClass c m ↔ ∃ e, m !! k = Some e ∧ c ∈ Cy.ele_classes e.
Proof.
  unfold Cy.withClass. rewrite elem_of_dom. unfold is_Some.
  setoid_rewrite map_lookup_filter_Some. naive_solver.
Qed.

Lemma elem_of_connectedEdges m n k :
  k ∈ Cy.connectedEdges m n ↔ ∃ d, Cy.ele_data <$> m !! k = Some d ∧ Cy.touches n d = true.
Proof.
  unfold Cy.connectedEdges. rewrite elem_of_dom. unfold is_Some.
  setoid_rewrite map_lookup_filter_Some. split.
  - intros (e & He & Ht). exists (Cy.ele_data e). by rewrite He.
  - intros (d & Hd & Ht). destruct (m !! k) as [e|] eqn:E; simplify_eq/=. eauto.
Qed.


Lemma sameData_dom m m' : sameData m m' → dom m = dom m'.
Proof.
  intros H. apply set_eq. intros k. rewrite !elem_of_dom.
  specialize (H k). destruct (m !! k), (m' !! k); simplify_eq/=;
    split; intros [? ?]; try discriminate; eauto.
Qed.

Lemma sameData_connectedEdges m m' n :
  sameData m m' → Cy.connectedEdges m n = Cy.connectedEdges m' n.
Proof.
  intros H. apply set_eq. intros k. rewrite !elem_of_connectedEdges.
  by rewrite (H k).
Qed.

Lemma sameData_endpoints m m' k : sameData m m' → Cy.endpoints m k = Cy.endpoints m' k.
Proof. intros H. unfold Cy.endpoints. by rewrite (H k). Qed.

Lemma sameData_connectedNodes m m' es :
  sameData m m' → Cy.connectedNodes m es = Cy.connectedNodes m' es.
Proof.
  intros H. unfold Cy.connectedNodes. rewrite (sameData_dom _ _ H).
  f_equal. apply set_eq. intros k. rewrite !elem_of_set_bind.
  by setoid_rewrite (sameData_endpoints m m' _ H).
Qed.

Lemma sameData_addClass coll cls m : sameData (Cy.addClass coll cls m) m.
Proof. intros k. apply data_addClass. Qed.

Lemma sameData_removeClass coll cls m : sameData (Cy.removeClass coll cls m) m.
Proof. intros k. apply data_removeClass. Qed.

Lemma sameData_trans m1 m2 m3 : sameData m1 m2 → sameData m2 m3 → sameData m1 m3.
Proof. intros H1 H2 k. by rewrite (H1 k). Qed.

Lemma sameData_sym m1 m2 : sameData m1 m2 → sameData m2 m1.
Proof. intros H k. by rewrite (H k). Qed.

Lemma withClass_subseteq c m : Cy.withClass c m ⊆ dom m.
Proof. intros k. rewrite elem_of_withClass, elem_of_dom. naive_solver. Qed.

Lemma connectedEdges_subseteq m n : Cy.connectedEdges m n ⊆ dom m.
Proof.
  intros k. rewrite elem_of_connectedEdges, elem_of_dom.
  intros (d & Hd & _). destruct (m !! k); [eauto|discriminate].
Qed.

Lemma connectedNodes_subseteq m es : Cy.connectedNodes m es ⊆ dom m.
Proof. unfold Cy.connectedNodes. set_solver. Qed.

Lemma withClass_addClass c coll cls m :
  Cy.withClass c (Cy.addClass coll cls m) =
  Cy.withClass c m ∪ (if decide (c ∈ Cy.classSet cls) then coll ∩ dom m else ∅).
Proof.
  apply set_eq. intros k. rewrite elem_of_union, !elem_of_withClass.
  setoid_rewrite lookup_addClass. split.
  - intros (e & He & Hc). destruct (m !! k) as [e0|] eqn:E; simplify_eq/=.
    case_decide; simpl in Hc.
    + apply elem_of_union in Hc as [Hc|Hc]; [eauto|].
      right. rewrite decide_True by done.
      apply elem_of_intersection. split; [done|]. apply elem_of_dom; eauto.
    + eauto.
  - intros [(e & He & Hc)|Hk].
    + rewrite He. simpl. eexists; split; [done|]. case_decide; set_solver.
    + case_decide; [|set_solver].
      apply elem_of_intersection in Hk as [Hk Hd].
      apply elem_of_dom in Hd as [e He]. rewrite He. simpl.
      eexists; split; [done|]. rewrite decide_True by done. set_solver.
Qed.

Lemma withClass_removeClass c coll cls m :
  Cy.withClass c (Cy.removeClass coll cls m) =
  Cy.withClass c m ∖ (if decide (c ∈ Cy.classSet cls) then coll else ∅).
Proof.
  apply set_eq. intros k. rewrite elem_of_difference, !elem_of_withClass.
  setoid_rewrite lookup_removeClass. split.
  - intros (e & He & Hc). destruct (m !! k) as [e0|] eqn:E; simplify_eq/=.
    case_decide; simpl in Hc.
    + apply elem_of_difference in Hc as [Hc Hn]. split; [eauto|].
      rewrite decide_False by done. set_solver.
    + split; [eauto|]. case_decide; set_solver.
  - intros [(e & He & Hc) Hn]. rewrite He. simpl.
    eexists; split; [reflexivity|]. destruct (decide (k ∈ coll)); [|done]. simpl.
    apply elem_of_difference. split; [done|]. intros Hin.
    rewrite decide_True in Hn by done. done.
Qed.

Lemma dom_addClass coll cls m : dom (Cy.addClass coll cls m) = dom m.
Proof. apply sameData_dom, sameData_addClass. Qed.

Lemma dom_removeClass coll cls m : dom (Cy.removeClass coll cls m) = dom m.
Proof. apply sameData_dom, sameData_removeClass. Qed.

Lemma classSet_marks : Cy.classSet "highlighted faded" = {["highlighted"; "faded"]}.
Proof. unfold Cy.classSet. change (Js.words "highlighted faded") with ["highlighted"; "faded"]. set_solver. Qed.

Lemma classSet_highlighted : Cy.classSet "highlighted" = {["highlighted"]}.
Proof. unfold Cy.classSet. change (Js.words "highlighted") with ["highlighted"]. set_solver. Qed.

Lemma classSet_faded : Cy.classSet "faded" = {["faded"]}.
Proof. unfold Cy.classSet. change (Js.words "faded") with ["faded"]. set_solver. Qed.

Lemma withClass_cleared c m :
  c ∈ Cy.classSet "highlighted faded" →
  Cy.withClass c (Cy.removeClass (Cy.elements m) "highlighted faded" m) = ∅.
Proof.
  intros Hc. rewrite withClass_removeClass, decide_True by done.
  pose proof (withClass_subseteq c m). unfold Cy.elements. set_solver.
Qed.

End Store.

Section Tap.
Implicit Types (m : gmap EleId Cy.Ele) (k : EleId) (n : string).

Lemma sameData_tapElements m n : sameData (tapElements m n) m.
Proof.
  unfold tapElements. cbv zeta.
  eapply sameData_trans; [apply sameData_addClass|].
  eapply sameData_trans; [apply sameData_addClass|].
  eapply sameData_trans; [apply sameData_addClass|].
  apply sameData_removeClass.
Qed.

Lemma highlighted_tapElements m n :
  Cy.withClass "highlighted" (tapElements m n) =
  Cy.connectedEdges m n ∪ Cy.connectedNodes m (Cy.connectedEdges m n).
Proof.
  unfold tapElements.
  set (m1 := Cy.removeClass (Cy.elements m) "highlighted faded" m).
  assert (Hs : sameData m1 m) by apply sameData_removeClass.
  rewrite (sameData_connectedEdges m1 m n Hs).
  rewrite (sameData_connectedNodes m1 m _ Hs).
  rewrite !withClass_addClass, !dom_addClass.
  rewrite classSet_highlighted, classSet_faded.
  rewrite !(decide_True (P := "highlighted" ∈ ({["highlighted"]} : gset string)))
    by (apply elem_of_singleton; reflexivity).
  rewrite (decide_False (P := "highlighted" ∈ ({["faded"]} : gset string)))
    by (rewrite elem_of_singleton; discriminate).
  unfold m1. rewrite withClass_cleared
    by (rewrite classSet_marks; apply elem_of_union_l, elem_of_singleton; reflexivity).
  rewrite dom_removeClass.
  pose proof (connectedEdges_subseteq m n).
  pose proof (connectedNodes_subseteq m (Cy.connectedEdges m n)).
  set_solver.
Qed.

Lemma faded_tapElements m n :
  Cy.withClass "faded" (tapElements m n) =
  dom m ∖ ({[NodeId n]} ∪ Cy.connectedEdges m n ∪ Cy.connectedNodes m (Cy.connectedEdges m n)).
Proof.
  unfold tapElements.
  set (m1 := Cy.removeClass (Cy.elements m) "highlighted faded" m).
  assert (Hs : sameData m1 m) by apply sameData_removeClass.
  rewrite (sameData_connectedEdges m1 m n Hs).
  rewrite (sameData_connectedNodes m1 m _ Hs).
  rewrite !withClass_addClass, !dom_addClass.
  rewrite classSet_highlighted, classSet_faded.
  rewrite !(decide_False (P := "faded" ∈ ({["highlighted"]} : gset string)))
    by (rewrite elem_of_singleton; discriminate).
  rewrite (decide_True (P := "faded" ∈ ({["faded"]} : gset string)))
    by (apply elem_of_singleton; reflexivity).
  unfold m1. rewrite withClass_cleared
    by (rewrite classSet_marks; apply elem_of_union_r, elem_of_singleton; reflexivity).
  unfold Cy.not, Cy.elements. rewrite dom_removeClass.
  set_solver.
Qed.

End Tap.

(** ** Creating the elements *)

Section Create.
Implicit Types (m acc : gmap EleId Cy.Ele) (k : EleId).

Lemma fold_left_entries {A} (f : gmap EleId Cy.Ele → A → gmap EleId Cy.Ele)
    (Q : EleId → Cy.Ele → Prop) (l : list A) acc :
  (∀ m x, x ∈ l → (∀ k e, m !! k = Some e → Q k e) →
          ∀ k e, f m x !! k = Some e → Q k e) →
  (∀ k e, acc !! k = Some e → Q k e) →
  ∀ k e, fold_left f l acc !! k = Some e → Q k e.
Proof.
  revert acc. induction l as [|x l IH]; intros acc Hf Hacc; simpl; [done|].
  apply IH.
  - intros m y Hy. apply Hf. by right.
  - apply Hf; [by left | done].
Qed.

Lemma addNode_entries (Q : EleId → Cy.Ele → Prop) m d :
  Q (NodeId (nd_id (def_data d)))
    {| Cy.ele_data := Cy.NodeD (def_data d);
       Cy.ele_classes := Cy.classSet (def_classes d) |} →
  (∀ k e, m !! k = Some e → Q k e) →
  ∀ k e, Cy.addNode m d !! k = Some e → Q k e.
Proof.
  intros Hd Hm k e. unfold Cy.addNode.
  destruct (m !! NodeId (nd_id (def_data d))) eqn:E; [apply Hm|].
  rewrite lookup_insert. case_decide; [|apply Hm].
  intros [= <-]. by subst.
Qed.

Lemma addEdge_entries (Q : EleId → Cy.Ele → Prop) m (kd : nat * EdgeDef) :
  Q (EdgeId (fst kd)) {| Cy.ele_data := Cy.EdgeD (edef_data (snd kd)); Cy.ele_classes := ∅ |} →
  (∀ k e, m !! k = Some e → Q k e) →
  ∀ k e, Cy.addEdge m kd !! k = Some e → Q k e.
Proof.
  intros Hd Hm k e. unfold Cy.addEdge.
  destruct (_ && _); [|apply Hm].
  rewrite lookup_insert. case_decide; [|apply Hm].
  intros [= <-]. by subst.
Qed.

Lemma createElements_entries (Q : EleId → Cy.Ele → Prop) defs :
  (∀ d, d ∈ def_nodes defs →
     Q (NodeId (nd_id (def_data d)))
       {| Cy.ele_data := Cy.NodeD (def_data d);
          Cy.ele_classes := Cy.classSet (def_classes d) |}) →
  (∀ i d, Q (EdgeId i) {| Cy.ele_data := Cy.EdgeD (edef_data d); Cy.ele_classes := ∅ |}) →
  ∀ k e, Cy.createElements defs !! k = Some e → Q k e.
Proof.
  intros Hn He. unfold Cy.createElements.
  apply fold_left_entries.
  - intros m [i d] _. apply addEdge_entries, He.
  - apply fold_left_entries.
    + intros m d Hd. by apply addNode_entries, Hn.
    + intros k e. by rewrite lookup_empty.
Qed.

Lemma createElements_wf defs : storeWf (Cy.createElements defs).
Proof.
  unfold storeWf.
  apply (createElements_entries (fun k e => match k with
    | NodeId n => ∃ d, Cy.ele_data e = Cy.NodeD d ∧ nd_id d = n
    | EdgeId _ => ∃ d, Cy.ele_data e = Cy.EdgeD d end)); simpl; eauto.
Qed.

Lemma noMarkClass_spec cls :
  noMarkClass cls = true ↔ ("highlighted" ∉ Cy.classSet cls) ∧ ("faded" ∉ Cy.classSet cls).
Proof.
  unfold noMarkClass. rewrite andb_true_iff, !negb_true_iff, !bool_decide_eq_false. done.
Qed.

Lemma createElements_unmarked defs :
  Forall (fun d => noMarkClass (def_classes d) = true) (def_nodes defs) →
  unmarked (Cy.createElements defs).
Proof.
  intros H. unfold unmarked. apply (createElements_entries (fun _ e =>
    ("highlighted" ∉ Cy.ele_classes e) ∧ ("faded" ∉ Cy.ele_classes e))); simpl.
  - intros d Hd. rewrite Forall_forall in H. by apply noMarkClass_spec, H.
  - intros _ _. split; apply not_elem_of_empty.
Qed.

Lemma unmarked_withClass m c :
  unmarked m → c ∈ Cy.classSet "highlighted faded" → Cy.withClass c m = ∅.
Proof.
  intros H Hc. apply set_eq. intros k. rewrite elem_of_withClass.
  split; [|by intros ?%not_elem_of_empty].
  intros (e & He & Hin). destruct (H k e He) as [H1 H2].
  rewrite classSet_marks in Hc. apply elem_of_union in Hc as [Hc|Hc];
    apply elem_of_singleton in Hc; subst; done.
Qed.

End Create.

(** ** The element mapping *)

Lemma mapM_nodeDef_inr ns nds :
  Js.mapM nodeDef ns = inr nds →
  Forall2 (fun n d => ∃ t, nd_type (n_data n) = Some t ∧
             d = {| def_data := n_data n; def_classes := Js.toLowerCase t |}) ns nds.
Proof.
  revert nds. induction ns as [|n ns IH]; intros nds; simpl.
  - intros [= <-]. constructor.
  - unfold nodeDef at 1. destruct (nd_type (n_data n)) as [t|] eqn:E; simpl; [|discriminate].
    destruct (Js.mapM nodeDef ns) as [|nds']; simpl; [discriminate|].
    intros [= <-]. constructor; eauto.
Qed.

Lemma mapM_nodeDef_typed ns :
  Forall (fun n => nd_type (n_data n) ≠ None) ns → ∃ nds, Js.mapM nodeDef ns = inr nds.
Proof.
  induction 1 as [|n ns Hn _ [nds IH]]; simpl; [eauto|].
  unfold nodeDef at 1. destruct (nd_type (n_data n)); [|done]. simpl.
  rewrite IH. simpl. eauto.
Qed.

Lemma mapM_nodeDef_untyped ns :
  Exists (fun n => nd_type (n_data n) = None) ns → ∃ e, Js.mapM nodeDef ns = inl e.
Proof.
  induction 1 as [n ns Hn|n ns _ [e IH]]; simpl.
  - unfold nodeDef. rewrite Hn. simpl. eauto.
  - destruct (nodeDef n); simpl; [eauto|]. rewrite IH. simpl. eauto.
Qed.

Lemma elementsOf_noMark ns es defs :
  noMarkTypes ns = true → elementsOf ns es = inr defs →
  Forall (fun d => noMarkClass (def_classes d) = true) (def_nodes defs).
Proof.
  unfold elementsOf, noMarkTypes. intros Hm.
  destruct (Js.mapM nodeDef ns) as [|nds] eqn:E; simpl; [discriminate|].
  intros [= <-]. simpl. apply mapM_nodeDef_inr in E.
  rewrite forallb_forall in Hm.
  induction E as [|n d ns nds (t & Ht & ->) _ IH]; constructor.
  - simpl. specialize (Hm n (or_introl eq_refl)). by rewrite Ht in Hm.
  - apply IH. intros x Hx. apply Hm. by right.
Qed.

(** ** The handlers *)

Section Handlers.
Implicit Types (s : State) (p : GraphVisualizationProps) (n : string) (cy : Cy.Core).

Lemma hasNode_data (m : gmap EleId Cy.Ele) n :
  Cy.hasNode m n = true ↔ ∃ d, Cy.ele_data <$> m !! NodeId n = Some (Cy.NodeD d).
Proof.
  unfold Cy.hasNode, Cy.isNode. destruct (m !! NodeId n) as [e|]; simpl.
  - destruct (Cy.ele_data e); split; intros H; try discriminate; eauto.
    destruct H as [? H]; discriminate.
  - split; [discriminate | intros [? H]; discriminate].
Qed.

Lemma isNodeOf_data s n :
  isNodeOf s n = true ↔
  ∃ cy d, cyRef s = Some cy ∧ Cy.ele_data <$> Cy.cy_elements cy !! NodeId n = Some (Cy.NodeD d).
Proof.
  unfold isNodeOf. destruct (cyRef s) as [cy|].
  - rewrite hasNode_data. split; [intros [d H]; eauto | intros (? & d & ? & H); simplify_eq; eauto].
  - split; [discriminate | intros (? & ? & ? & _); discriminate].
Qed.

Lemma onTapNode_node p n s cy d :
  cyRef s = Some cy →
  Cy.ele_data <$> Cy.cy_elements cy !! NodeId n = Some (Cy.NodeD d) →
  onTapNode p n s =
  setCy (Cy.setElements (tapElements (Cy.cy_elements cy) n) cy)
        (if onNodeClick p
         then emit (NodeClick (nd_id d) d) (setSelectedNode (Some d) s)
         else setSelectedNode (Some d) s).
Proof. intros H1 H2. unfold onTapNode. rewrite H1, H2. reflexivity. Qed.

Lemma onTapNode_other p n s :
  isNodeOf s n = false → onTapNode p n s = s.
Proof.
  unfold isNodeOf, onTapNode, Cy.hasNode, Cy.isNode.
  destruct (cyRef s) as [cy|]; [|done].
  destruct (Cy.cy_elements cy !! NodeId n) as [e|]; simpl; [|done].
  destruct (Cy.ele_data e); [discriminate | done].
Qed.

Lemma onTap_element k s : onTap (OnElement k) s = s.
Proof. unfold onTap. by destruct (cyRef s). Qed.

Lemma dispatchTap_node p n s :
  dispatchTap p (OnElement (NodeId n)) s = onTapNode p n s.
Proof. simpl. apply onTap_element. Qed.

Lemma nodeId_in_neighbors (m : gmap EleId Cy.Ele) n :
  NodeId n ∈ dom m → Cy.connectedEdges m n ≠ ∅ →
  NodeId n ∈ Cy.connectedNodes m (Cy.connectedEdges m n).
Proof.
  intros Hd Hne. apply set_choose_L in Hne as [k Hk].
  unfold Cy.connectedNodes. apply elem_of_intersection. split; [|exact Hd].
  apply elem_of_set_bind. exists k. split; [exact Hk|].
  apply elem_of_connectedEdges in Hk as (d & Hd' & Ht).
  unfold Cy.endpoints. rewrite Hd'. destruct d as [|e]; [discriminate|].
  simpl in Ht. apply orb_true_iff in Ht as [Ht|Ht];
    apply bool_decide_eq_true in Ht; subst; set_solver.
Qed.

End Handlers.

(** ** The selection state machine *)

Section Selection.
Implicit Types (s : State) (p : GraphVisualizationProps) (n : string) (cy : Cy.Core).
Implicit Types (m : gmap EleId Cy.Ele).

Lemma storeWf_sameData m m' : sameData m' m → storeWf m → storeWf m'.
Proof.
  intros Hs Hwf k e' He'. specialize (Hs k). rewrite He' in Hs. simpl in Hs.
  destruct (m !! k) as [e|] eqn:E; [|discriminate].
  injection Hs as Hs. specialize (Hwf k e E). rewrite Hs. exact Hwf.
Qed.

Lemma hasNode_sameData m m' n : sameData m' m → Cy.hasNode m' n = Cy.hasNode m n.
Proof.
  intros Hs. destruct (Cy.hasNode m n) eqn:E.
  - apply hasNode_data in E as [d Hd]. apply hasNode_data. exists d. by rewrite (Hs _).
  - apply not_true_is_false. intros [d Hd]%hasNode_data.
    rewrite (Hs _) in Hd. assert (Cy.hasNode m n = true) by (apply hasNode_data; eauto).
    congruence.
Qed.

Lemma storeWf_node_id m n d :
  storeWf m → Cy.ele_data <$> m !! NodeId n = Some (Cy.NodeD d) → nd_id d = n.
Proof.
  intros Hwf Hd. destruct (m !! NodeId n) as [e|] eqn:E; [|discriminate].
  destruct (Hwf _ _ E) as (d' & Hd' & Hid). simpl in Hd. congruence.
Qed.

(** The state after a tap on a node of the instance. *)
Lemma tap_node_state p n s cy d :
  cyRef s = Some cy →
  Cy.ele_data <$> Cy.cy_elements cy !! NodeId n = Some (Cy.NodeD d) →
  let s' := onTapNode p n s in
  cyRef s' = Some (Cy.setElements (tapElements (Cy.cy_elements cy) n) cy) ∧
  selectedNode s' = Some d ∧
  highlighted s' = incidentEdges s n ∪ neighbors s n ∧
  faded s' = allElements s ∖ closedNeighborhood s n ∧
  incidentEdges s' n = incidentEdges s n ∧
  neighbors s' n = neighbors s n ∧
  allElements s' = allElements s ∧
  isNodeOf s' n = true.
Proof.
  intros Hcy Hd. simpl. rewrite (onTapNode_node p n s cy d Hcy Hd).
  pose proof (sameData_tapElements (Cy.cy_elements cy) n) as Hs.
  unfold highlighted, faded, allElements, closedNeighborhood, incidentEdges,
    neighbors, isNodeOf. rewrite Hcy. simpl.
  rewrite highlighted_tapElements, faded_tapElements.
  rewrite !(sameData_connectedEdges _ _ n Hs), (sameData_connectedNodes _ _ _ Hs).
  rewrite (hasNode_sameData _ _ n Hs). unfold Cy.elements. rewrite (sameData_dom _ _ Hs).
  repeat split; try done.
  - by destruct (onNodeClick p).
  - apply hasNode_data. eauto.
Qed.

(** The state after a tap on the background, or a reset, of a mounted graph. *)
Lemma cleared_marks cy s' :
  cyRef s' = Some (Cy.setElements
    (Cy.removeClass (Cy.elements (Cy.cy_elements cy)) "highlighted faded" (Cy.cy_elements cy)) cy) →
  highlighted s' = ∅ ∧ faded s' = ∅.
Proof.
  intros H. unfold highlighted, faded. rewrite H. simpl.
  split; apply withClass_cleared; rewrite classSet_marks.
  - apply elem_of_union_l, elem_of_singleton; reflexivity.
  - apply elem_of_union_r, elem_of_singleton; reflexivity.
Qed.

Lemma zoom_elements level cy : Cy.cy_elements (Cy.zoom level cy) = Cy.cy_elements cy.
Proof. unfold Cy.zoom. by destruct (Cy.isNumber level). Qed.

Lemma fit_elements padding cy : Cy.cy_elements (Cy.fit padding cy) = Cy.cy_elements cy.
Proof. unfold Cy.fit. by destruct (Cy.fitZoom _ _). Qed.

Lemma selectionInv_sameElements s s' cy cy' :
  cyRef s = Some cy → cyRef s' = Some cy' →
  Cy.cy_elements cy' = Cy.cy_elements cy → selectedNode s' = selectedNode s →
  selectionInv s → selectionInv s'.
Proof.
  unfold selectionInv, highlighted, faded, allElements, closedNeighborhood,
    incidentEdges, neighbors, isNodeOf.
  intros -> -> -> ->. done.
Qed.

Lemma step_selectionInv p s ev : selectionInv s → selectionInv (step p s ev).
Proof.
  intros Hinv. unfold step. destruct (interactive p); [|done].
  destruct (cyRef s) as [cy|] eqn:Hcy.
  2:{ destruct ev as [[|[n|k]]| | | | | |]; simpl;
        unfold onTap, onTapNode, onMouseOver, onMouseOut, handleZoomIn,
          handleZoomOut, handleFit, handleReset; rewrite ?Hcy; done. }
  assert (Hwf : storeWf (Cy.cy_elements cy)).
  { unfold selectionInv in Hinv. rewrite Hcy in Hinv. tauto. }
  destruct ev as [[|[n|k]]| n | n | | | |]; simpl.
  - (* background *)
    unfold onTap. rewrite Hcy. unfold selectionInv. simpl. split.
    + eapply storeWf_sameData; [apply sameData_removeClass | done].
    + eapply (cleared_marks cy). reflexivity.
  - (* node *)
    rewrite onTap_element.
    destruct (isNodeOf s n) eqn:Hn; [|by rewrite onTapNode_other].
    apply isNodeOf_data in Hn as (cy0 & d & Hcy0 & Hd). simplify_eq.
    destruct (tap_node_state p n s cy d Hcy Hd) as (H1 & H2 & H3 & H4 & H5 & H6 & H7 & H8).
    pose proof (storeWf_node_id _ _ _ Hwf Hd) as Hid.
    unfold selectionInv. rewrite H1, H2, Hid. simpl. split.
    + eapply storeWf_sameData; [apply sameData_tapElements | done].
    + unfold closedNeighborhood. rewrite H5, H6, H7. done.
  - (* edge *) by rewrite onTap_element.
  - (* mouseover *)
    unfold onMouseOver. rewrite Hcy.
    destruct (Cy.cy_elements cy !! NodeId n); [|done].
    destruct (_ && _); [|done].
    eapply selectionInv_sameElements; eauto.
  - (* mouseout *)
    unfold onMouseOut. rewrite Hcy. destruct (Cy.hasNode _ _); [|done].
    eapply selectionInv_sameElements; eauto.
  - unfold handleZoomIn. rewrite Hcy.
    eapply selectionInv_sameElements; eauto. simpl. apply zoom_elements.
  - unfold handleZoomOut. rewrite Hcy.
    eapply selectionInv_sameElements; eauto. simpl. apply zoom_elements.
  - unfold handleFit. rewrite Hcy.
    eapply selectionInv_sameElements; eauto. apply fit_elements.
  - unfold handleReset. rewrite Hcy. unfold selectionInv. simpl. split.
    + eapply storeWf_sameData; [apply sameData_removeClass | done].
    + eapply (cleared_marks cy). reflexivity.
Qed.

Lemma run_selectionInv p evs s : selectionInv s → selectionInv (run p evs s).
Proof.
  revert s. induction evs as [|ev evs IH]; intros s H; simpl; [done|].
  apply IH, step_selectionInv, H.
Qed.

Lemma mount_selectionInv r p s0 :
  noMarkTypes (nodes p) = true → mount r p = inr s0 → selectionInv s0.
Proof.
  intros Hm. unfold mount. destruct r as [r|]; [|by intros [= <-]].
  destruct (length (nodes p) =? 0)%nat; [by intros [= <-]|].
  destruct (elementsOf (nodes p) (edges p)) as [|defs] eqn:E; simpl; [discriminate|].
  intros [= <-]. unfold selectionInv, highlighted, faded. simpl.
  pose proof (createElements_unmarked defs (elementsOf_noMark _ _ _ Hm E)) as Hu.
  split; [apply createElements_wf|].
  split; apply unmarked_withClass; try done.
Qed.

End Selection.

(** ** Nodes and edges of a new instance *)

Section CreateLookup.
Implicit Types (m acc : gmap EleId Cy.Ele) (n : string).

Lemma addEdge_lookup_node m kd n : Cy.addEdge m kd !! NodeId n = m !! NodeId n.
Proof.
  unfold Cy.addEdge. destruct (_ && _); [|done]. by rewrite lookup_insert_ne.
Qed.

Lemma fold_addEdge_lookup_node (l : list (nat * EdgeDef)) acc n :
  fold_left Cy.addEdge l acc !! NodeId n = acc !! NodeId n.
Proof.
  revert acc. induction l as [|kd l IH]; intros acc; simpl; [done|].
  by rewrite IH, addEdge_lookup_node.
Qed.

Lemma fold_addEdge_hasNode (l : list (nat * EdgeDef)) acc n :
  Cy.hasNode (fold_left Cy.addEdge l acc) n = Cy.hasNode acc n.
Proof. unfold Cy.hasNode. by rewrite fold_addEdge_lookup_node. Qed.

Lemma createElements_lookup_node defs n :
  Cy.createElements defs !! NodeId n = nodeStore defs !! NodeId n.
Proof. unfold Cy.createElements. apply fold_addEdge_lookup_node. Qed.

Lemma fold_addNode_lookup_edge (l : list NodeDef) acc k :
  fold_left Cy.addNode l acc !! EdgeId k = acc !! EdgeId k.
Proof.
  revert acc. induction l as [|d l IH]; intros acc; simpl; [done|].
  rewrite IH. unfold Cy.addNode. destruct (acc !! NodeId _); [done|].
  by rewrite lookup_insert_ne.
Qed.

Lemma fold_addNode_is_Some (l : list NodeDef) acc n :
  is_Some (fold_left Cy.addNode l acc !! NodeId n) ↔
  is_Some (acc !! NodeId n) ∨ ∃ d, d ∈ l ∧ nd_id (def_data d) = n.
Proof.
  revert acc. induction l as [|d l IH]; intros acc; simpl.
  - split; [auto | intros [H|(d & Hd & _)]; [done | by apply elem_of_nil in Hd]].
  - rewrite IH. unfold Cy.addNode at 1.
    destruct (acc !! NodeId (nd_id (def_data d))) as [e|] eqn:E.
    + split.
      * intros [H|(d' & Hd' & Hid)]; [auto|]. right. exists d'. split; [by right|done].
      * intros [H|(d' & Hd' & Hid)]; [auto|].
        apply elem_of_cons in Hd' as [->|Hd']; [|right; eauto].
        left. rewrite <- Hid, E. eauto.
    + rewrite lookup_insert. split.
      * intros [H|(d' & Hd' & Hid)].
        -- case_decide as Hk; [|auto]. right. exists d. split; [by left|congruence].
        -- right. exists d'. split; [by right|done].
      * intros [H|(d' & Hd' & Hid)].
        -- left. case_decide; [eauto|done].
        -- apply elem_of_cons in Hd' as [->|Hd']; [|right; eauto].
           left. rewrite decide_True by congruence. eauto.
Qed.

Lemma hasNode_createElements defs n :
  Cy.hasNode (Cy.createElements defs) n = true ↔
  ∃ d, d ∈ def_nodes defs ∧ nd_id (def_data d) = n.
Proof.
  transitivity (is_Some (nodeStore defs !! NodeId n)).
  - unfold Cy.hasNode. rewrite <- createElements_lookup_node.
    destruct (Cy.createElements defs !! NodeId n) as [e|] eqn:E.
    + destruct (createElements_wf defs _ _ E) as (d & Hd & _).
      unfold Cy.isNode. rewrite Hd. split; eauto.
    + split; [done | intros [? H]; discriminate].
  - unfold nodeStore. rewrite fold_addNode_is_Some, lookup_empty.
    split; [intros [[? H]|H]; [discriminate | done] | auto].
Qed.

Lemma fold_addEdge_lookup_edge (es : list EdgeDef) acc k :
  (∀ i, acc !! EdgeId i = None) →
  fold_left Cy.addEdge (imap (fun i d => (i, d)) es) acc !! EdgeId k =
  es !! k ≫= edgeEle acc.
Proof.
  intros Hacc. induction es as [|d es IH] using rev_ind; [by rewrite Hacc|].
  rewrite imap_app, fold_left_app. simpl.
  unfold Cy.addEdge at 1. simpl. rewrite !fold_addEdge_hasNode.
  rewrite Nat.add_0_r.
  destruct (decide (k = List.length es)) as [->|Hk].
  - rewrite lookup_app_r, Nat.sub_diag by lia. simpl. unfold edgeEle.
    destruct (_ && _).
    + by rewrite lookup_insert_eq.
    + rewrite IH. by rewrite lookup_ge_None_2.
  - assert ((es ++ [d])%list !! k = es !! k) as ->.
    { destruct (decide (k < List.length es)%nat).
      - by rewrite lookup_app_l.
      - rewrite !lookup_ge_None_2; [done | lia | rewrite length_app; simpl; lia]. }
    destruct (_ && _); [|done].
    rewrite lookup_insert_ne by congruence. done.
Qed.

Lemma createElements_lookup_edge defs k :
  Cy.createElements defs !! EdgeId k = def_edges defs !! k ≫= edgeEle (nodeStore defs).
Proof.
  unfold Cy.createElements. apply fold_addEdge_lookup_edge.
  intros i. unfold nodeStore. by rewrite fold_addNode_lookup_edge.
Qed.

End CreateLookup.

(** ** The viewport *)

Section Viewport.
Implicit Types (s : State) (p : GraphVisualizationProps) (cy : Cy.Core).

Lemma zoom_bounds level cy :
  Cy.minZoom (Cy.zoom level cy) = Cy.minZoom cy ∧
  Cy.maxZoom (Cy.zoom level cy) = Cy.maxZoom cy ∧
  Cy.cy_renderer (Cy.zoom level cy) = Cy.cy_renderer cy.
Proof. unfold Cy.zoom. by destruct (Cy.isNumber level). Qed.

Lemma zoom_inRange level cy :
  (Cy.minZoom cy <=? Cy.maxZoom cy)%float = true →
  inRange (Cy.minZoom cy) (Cy.maxZoom cy) (Cy.cy_zoom cy) = true →
  inRange (Cy.minZoom cy) (Cy.maxZoom cy) (Cy.cy_zoom (Cy.zoom level cy)) = true.
Proof.
  intros Hb Hz. unfold Cy.zoom. destruct (Cy.isNumber level) eqn:E; [|done].
  simpl. by apply cropZoom_inRange.
Qed.

Lemma fit_idempotent padding cy :
  Cy.fit padding (Cy.fit padding cy) = Cy.fit padding cy.
Proof.
  unfold Cy.fit. destruct (Cy.fitZoom (Cy.cy_renderer cy) padding) as [z|] eqn:E;
    simpl; rewrite E; reflexivity.
Qed.

Lemma zoomBounded_zoom s cy level :
  cyRef s = Some cy → zoomBounded s → zoomBounded (setCy (Cy.center (Cy.zoom level cy)) s).
Proof.
  unfold zoomBounded. intros -> (Hlo & Hhi & Hz). simpl.
  destruct (zoom_bounds level cy) as (-> & -> & _).
  split; [done|]. split; [done|].
  rewrite <- Hlo, <- Hhi. apply zoom_inRange.
  - rewrite Hlo, Hhi. reflexivity.
  - by rewrite Hlo, Hhi.
Qed.

Lemma zoomBounded_sameViewport s s' cy cy' :
  cyRef s = Some cy → cyRef s' = Some cy' →
  Cy.cy_zoom cy' = Cy.cy_zoom cy → Cy.minZoom cy' = Cy.minZoom cy →
  Cy.maxZoom cy' = Cy.maxZoom cy →
  zoomBounded s → zoomBounded s'.
Proof. unfold zoomBounded. by intros -> -> -> -> ->. Qed.

Lemma step_zoomBounded p s ev :
  notFit ev = true → zoomBounded s → zoomBounded (step p s ev).
Proof.
  intros Hev Hz. unfold step. destruct (interactive p); [|done].
  destruct (cyRef s) as [cy|] eqn:Hcy.
  2:{ destruct ev as [[|[n|k]]| | | | | |]; simpl;
        unfold onTap, onTapNode, onMouseOver, onMouseOut, handleZoomIn,
          handleZoomOut, handleFit, handleReset; rewrite ?Hcy; done. }
  destruct ev as [[|[n|k]]| n | n | | | |]; simpl; try discriminate.
  - unfold onTap. rewrite Hcy. eapply zoomBounded_sameViewport; eauto.
  - rewrite onTap_element.
    destruct (isNodeOf s n) eqn:Hn; [|by rewrite onTapNode_other].
    apply isNodeOf_data in Hn as (cy0 & d & Hcy0 & Hd). simplify_eq.
    rewrite (onTapNode_node p n s cy d Hcy Hd).
    eapply zoomBounded_sameViewport; eauto.
  - by rewrite onTap_element.
  - unfold onMouseOver. rewrite Hcy.
    destruct (Cy.cy_elements cy !! NodeId n); [|done].
    destruct (_ && _); [|done]. eapply zoomBounded_sameViewport; eauto.
  - unfold onMouseOut. rewrite Hcy. destruct (Cy.hasNode _ _); [|done].
    eapply zoomBounded_sameViewport; eauto.
  - unfold handleZoomIn. rewrite Hcy. by apply zoomBounded_zoom.
  - unfold handleZoomOut. rewrite Hcy. by apply zoomBounded_zoom.
  - unfold handleReset. rewrite Hcy. eapply zoomBounded_sameViewport; eauto.
Qed.

Lemma run_zoomBounded p evs s :
  forallb notFit evs = true → zoomBounded s → zoomBounded (run p evs s).
Proof.
  revert s. induction evs as [|ev evs IH]; intros s Hevs Hz; simpl; [done|].
  simpl in Hevs. apply andb_true_iff in Hevs as [Hev Hevs].
  apply IH; [done|]. by apply step_zoomBounded.
Qed.

Lemma mount_zoomBounded r p s0 : mount r p = inr s0 → zoomBounded s0.
Proof.
  unfold mount. destruct r as [r|]; [|by intros [= <-]].
  destruct (List.length (nodes p) =? 0)%nat; [by intros [= <-]|].
  destruct (elementsOf (nodes p) (edges p)) as [|defs]; simpl; [discriminate|].
  intros [= <-]. unfold zoomBounded. simpl. done.
Qed.

(** Nothing is selected while there is no instance, and an instance,
    once stored, stays. *)
Lemma step_cyRef_None p s ev : cyRef s = None → step p s ev = s.
Proof.
  intros Hcy. unfold step. destruct (interactive p); [|done].
  destruct ev as [[|[n|k]]| | | | | |]; simpl;
    unfold onTap, onTapNode, onMouseOver, onMouseOut, handleZoomIn,
      handleZoomOut, handleFit, handleReset; rewrite ?Hcy; done.
Qed.

Lemma run_cyRef_None p evs s : cyRef s = None → run p evs s = s.
Proof.
  intros Hcy. induction evs as [|ev evs IH]; simpl; [done|].
  by rewrite step_cyRef_None.
Qed.

End Viewport.

(** ** Reset and background tap *)

Lemma step_cyRef_Some p s ev cy :
  cyRef s = Some cy → ∃ cy', cyRef (step p s ev) = Some cy'.
Proof.
  intros Hcy. unfold step. destruct (interactive p); [|eauto].
  destruct ev as [[|[n|k]]| n | n | | | |]; simpl.
  - unfold onTap. rewrite Hcy. simpl. eauto.
  - rewrite onTap_element.
    destruct (isNodeOf s n) eqn:Hn; [|rewrite onTapNode_other; eauto].
    apply isNodeOf_data in Hn as (cy0 & d & Hcy0 & Hd). simplify_eq.
    rewrite (onTapNode_node p n s cy d Hcy Hd). simpl. eauto.
  - rewrite onTap_element. eauto.
  - unfold onMouseOver. rewrite Hcy.
    destruct (Cy.cy_elements cy !! NodeId n); [|eauto].
    destruct (_ && _); simpl; eauto.
  - unfold onMouseOut. rewrite Hcy. destruct (Cy.hasNode _ _); simpl; eauto.
  - unfold handleZoomIn. rewrite Hcy. simpl. eauto.
  - unfold handleZoomOut. rewrite Hcy. simpl. eauto.
  - unfold handleFit. rewrite Hcy. simpl. eauto.
  - unfold handleReset. rewrite Hcy. simpl. eauto.
Qed.

Lemma run_cyRef_Some p evs s cy :
  cyRef s = Some cy → ∃ cy', cyRef (run p evs s) = Some cy'.
Proof.
  revert s cy. induction evs as [|ev evs IH]; intros s cy Hcy; simpl; [eauto|].
  destruct (step_cyRef_Some p s ev cy Hcy) as [cy' Hcy']. eauto.
Qed.

Lemma mount_cases r p s0 :
  mount r p = inr s0 → s0 = initialState ∨ ∃ cy, cyRef s0 = Some cy.
Proof.
  unfold mount. destruct r as [r|]; [|intros [= <-]; auto].
  destruct (List.length (nodes p) =? 0)%nat; [intros [= <-]; auto|].
  destruct (elementsOf (nodes p) (edges p)) as [|defs]; simpl; [discriminate|].
  intros [= <-]. simpl. eauto.
Qed.

Lemma handleReset_idle s cy : cyRef s = Some cy → renderState (handleReset s) = Idle.
Proof.
  intros Hcy. unfold handleReset. rewrite Hcy.
  unfold renderState, Idle. simpl.
  match goal with |- context [highlighted ?s'] =>
    destruct (cleared_marks cy s' eq_refl) as [-> ->] end.
  reflexivity.
Qed.

Lemma onTap_core_idle s cy : cyRef s = Some cy → renderState (onTap OnCore s) = Idle.
Proof.
  intros Hcy. unfold onTap. rewrite Hcy.
  unfold renderState, Idle. simpl.
  match goal with |- context [highlighted ?s'] =>
    destruct (cleared_marks cy s' eq_refl) as [-> ->] end.
  reflexivity.
Qed.

(** ** The viewport handlers and the selection *)

Section Frame.
Implicit Types (s : State) (cy : Cy.Core) (m : gmap EleId Cy.Ele).

Lemma zoom_setElements level m cy :
  Cy.zoom level (Cy.setElements m cy) = Cy.setElements m (Cy.zoom level cy).
Proof. unfold Cy.zoom. simpl. by destruct (Cy.isNumber level). Qed.

Lemma center_setElements m cy :
  Cy.center (Cy.setElements m cy) = Cy.setElements m (Cy.center cy).
Proof. reflexivity. Qed.

Lemma fit_setElements padding m cy :
  Cy.fit padding (Cy.setElements m cy) = Cy.setElements m (Cy.fit padding cy).
Proof. unfold Cy.fit. simpl. by destruct (Cy.fitZoom _ _). Qed.

Lemma renderState_setCy s cy cy' :
  cyRef s = Some cy → Cy.cy_elements cy' = Cy.cy_elements cy →
  renderState (setCy cy' s) = renderState s.
Proof.
  intros Hcy He. unfold renderState, highlighted, faded. simpl. by rewrite Hcy, He.
Qed.

Lemma handleZoomIn_frame s m d :
  renderState (handleZoomIn s) = renderState s ∧
  viewport (handleZoomIn (withSelection m d s)) = viewport (handleZoomIn s).
Proof.
  unfold handleZoomIn, withSelection. destruct (cyRef s) as [cy|] eqn:Hcy; simpl.
  - split; [apply (renderState_setCy s cy); [done | apply zoom_elements]|].
    unfold Cy.getZoom. simpl. rewrite zoom_setElements. reflexivity.
  - rewrite Hcy. unfold viewport. simpl. by rewrite Hcy.
Qed.

Lemma handleZoomOut_frame s m d :
  renderState (handleZoomOut s) = renderState s ∧
  viewport (handleZoomOut (withSelection m d s)) = viewport (handleZoomOut s).
Proof.
  unfold handleZoomOut, withSelection. destruct (cyRef s) as [cy|] eqn:Hcy; simpl.
  - split; [apply (renderState_setCy s cy); [done | apply zoom_elements]|].
    unfold Cy.getZoom. simpl. rewrite zoom_setElements. reflexivity.
  - rewrite Hcy. unfold viewport. simpl. by rewrite Hcy.
Qed.

Lemma handleFit_frame s m d :
  renderState (handleFit s) = renderState s ∧
  viewport (handleFit (withSelection m d s)) = viewport (handleFit s).
Proof.
  unfold handleFit, withSelection. destruct (cyRef s) as [cy|] eqn:Hcy; simpl.
  - split; [apply (renderState_setCy s cy); [done | apply fit_elements]|].
    rewrite fit_setElements. reflexivity.
  - rewrite Hcy. unfold viewport. simpl. by rewrite Hcy.
Qed.

End Frame.

(** ** The graph under events *)

Section Graph.
Implicit Types (s : State) (p : GraphVisualizationProps) (n : string) (cy : Cy.Core).
Implicit Types (m : gmap EleId Cy.Ele).

Lemma sameData_refl m : sameData m m.
Proof. by intros k. Qed.

Lemma step_sameGraph p s ev cy :
  cyRef s = Some cy →
  ∃ cy', cyRef (step p s ev) = Some cy' ∧
         sameData (Cy.cy_elements cy') (Cy.cy_elements cy).
Proof.
  intros Hcy.
  assert (Hsame : ∃ cy', cyRef s = Some cy' ∧
            sameData (Cy.cy_elements cy') (Cy.cy_elements cy))
    by (exists cy; split; [done | apply sameData_refl]).
  unfold step. destruct (interactive p); [|done].
  destruct ev as [[|[n|k]]| n | n | | | |]; simpl.
  - unfold onTap. rewrite Hcy. simpl.
    eexists; split; [reflexivity|]. apply sameData_removeClass.
  - rewrite onTap_element.
    destruct (isNodeOf s n) eqn:Hn; [|by rewrite onTapNode_other].
    apply isNodeOf_data in Hn as (cy0 & d & Hcy0 & Hd). simplify_eq.
    rewrite (onTapNode_node p n s cy d Hcy Hd). simpl.
    eexists; split; [reflexivity|]. apply sameData_tapElements.
  - by rewrite onTap_element.
  - unfold onMouseOver. rewrite Hcy.
    destruct (Cy.cy_elements cy !! NodeId n); [|done].
    destruct (_ && _); simpl; done.
  - unfold onMouseOut. rewrite Hcy.
    destruct (Cy.hasNode _ _); simpl; done.
  - unfold handleZoomIn. rewrite Hcy. simpl. eexists. split; [done|].
    simpl. rewrite zoom_elements. apply sameData_refl.
  - unfold handleZoomOut. rewrite Hcy. simpl. eexists. split; [done|].
    simpl. rewrite zoom_elements. apply sameData_refl.
  - unfold handleFit. rewrite Hcy. simpl. eexists. split; [done|].
    rewrite fit_elements. apply sameData_refl.
  - unfold handleReset. rewrite Hcy. simpl.
    eexists; split; [reflexivity|]. apply sameData_removeClass.
Qed.

Lemma run_sameGraph p evs s cy :
  cyRef s = Some cy →
  ∃ cy', cyRef (run p evs s) = Some cy' ∧
         sameData (Cy.cy_elements cy') (Cy.cy_elements cy).
Proof.
  revert s cy. induction evs as [|ev evs IH]; intros s cy Hcy; simpl.
  - exists cy. split; [done | apply sameData_refl].
  - destruct (step_sameGraph p s ev cy Hcy) as (cy1 & H1 & Hs1).
    destruct (IH _ _ H1) as (cy2 & H2 & Hs2).
    exists cy2. split; [done|]. by eapply sameData_trans.
Qed.

Lemma nodesFrom_sameData ns m m' : sameData m' m → nodesFrom ns m → nodesFrom ns m'.
Proof.
  intros Hs Hm n e' He'. specialize (Hs (NodeId n)). rewrite He' in Hs. simpl in Hs.
  destruct (m !! NodeId n) as [e|] eqn:E; [|discriminate].
  injection Hs as Hs. rewrite Hs. by eapply Hm.
Qed.

Lemma createElements_nodesFrom ns es defs :
  elementsOf ns es = inr defs → nodesFrom ns (Cy.createElements defs).
Proof.
  unfold elementsOf. destruct (Js.mapM nodeDef ns) as [|nds] eqn:E; simpl; [discriminate|].
  intros [= <-]. apply mapM_nodeDef_inr in E. intros n e.
  apply (createElements_entries (fun k e => match k with
    | NodeId n => ∃ g, g ∈ ns ∧ Cy.ele_data e = Cy.NodeD (n_data g) ∧ nd_id (n_data g) = n
    | EdgeId _ => True end) _) with (k := NodeId n); simpl; [|done].
  intros d Hd. apply list_elem_of_lookup in Hd as [i Hi].
  destruct (Forall2_lookup_r _ _ _ _ _ E Hi) as (g & Hg & t & _ & ->).
  exists g. split; [by eapply list_elem_of_lookup_2|done].
Qed.

Lemma mount_instance r p s0 cy :
  mount r p = inr s0 → cyRef s0 = Some cy →
  ∃ defs, elementsOf (nodes p) (edges p) = inr defs ∧
          Cy.cy_elements cy = Cy.createElements defs ∧
          emitted s0 = [LayoutRun true] ∧ selectedNode s0 = None.
Proof.
  unfold mount. destruct r as [r|]; [|by intros [= <-]].
  destruct (List.length (nodes p) =? 0)%nat; [by intros [= <-]|].
  destruct (elementsOf (nodes p) (edges p)) as [|defs]; simpl; [discriminate|].
  intros [= <-]. simpl. intros [= <-]. eauto.
Qed.

End Graph.

(** ** Class names *)

Section Words.

Lemma string_of_list_ascii_snoc (l : list ascii) (c : ascii) (r : string) :
  (string_of_list_ascii (l ++ [c])%list ++ r)%string =
  (string_of_list_ascii l ++ String c r)%string.
Proof.
  induction l as [|a l IH]; [reflexivity|].
  change (String a (string_of_list_ascii (l ++ [c])%list ++ r) =
          String a (string_of_list_ascii l ++ String c r)).
  by rewrite IH.
Qed.

Lemma wordsFrom_noSpace (cur : list ascii) (s : string) :
  noSpace s = true → cur ≠ [] ∨ s ≠ "" →
  Js.wordsFrom cur s = [(string_of_list_ascii (rev cur) ++ s)%string].
Proof.
  revert cur. induction s as [|c r IH]; intros cur Hs Hne; simpl.
  - destruct cur as [|a cur]; [by destruct Hne|].
    f_equal. generalize (rev (a :: cur)). intros l.
    induction l as [|x l IHl]; [reflexivity|].
    change (String x (string_of_list_ascii l) = String x (string_of_list_ascii l ++ "")).
    by rewrite <- IHl.
  - unfold noSpace in Hs. simpl in Hs. apply andb_true_iff in Hs as [Hc Hr].
    apply negb_true_iff in Hc. rewrite Hc.
    rewrite IH; [|exact Hr | left; discriminate].
    simpl. by rewrite string_of_list_ascii_snoc.
Qed.

Lemma isSpace_lowerChar (c : ascii) : Js.isSpace (Js.lowerChar c) = Js.isSpace c.
Proof. destruct c as [[] [] [] [] [] [] [] []]; reflexivity. Qed.

Lemma noSpace_toLowerCase (s : string) : noSpace (Js.toLowerCase s) = noSpace s.
Proof.
  unfold noSpace. induction s as [|c r IH]; simpl; [done|].
  by rewrite isSpace_lowerChar, IH.
Qed.

Lemma toLowerCase_empty (s : string) : Js.toLowerCase s = "" → s = "".
Proof. by destruct s. Qed.

End Words.

(** ** What is sent out *)

Section Emitted.
Implicit Types (s : State) (p : GraphVisualizationProps).

Lemma step_emitted_layout p s ev :
  onNodeClick p = false →
  forallb isLayoutRun (emitted s) = true →
  forallb isLayoutRun (emitted (step p s ev)) = true.
Proof.
  intros Hl He. unfold step. destruct (interactive p); [|done].
  destruct ev as [[|[n|k]]| n | n | | | |]; simpl;
    rewrite ?onTap_element;
    unfold onTap, onTapNode, onMouseOver, onMouseOut, handleZoomIn, handleZoomOut,
      handleFit, handleReset;
    destruct (cyRef s) as [cy|]; try done; simpl; try done.
  - destruct (Cy.ele_data <$> Cy.cy_elements cy !! NodeId n) as [[d|d]|]; try done.
    rewrite Hl. simpl. done.
  - destruct (Cy.cy_elements cy !! NodeId n); [|done]. by destruct (_ && _).
  - by destruct (Cy.hasNode _ _).
  - rewrite forallb_app, He. reflexivity.
Qed.

Lemma run_emitted_layout p evs s :
  onNodeClick p = false →
  forallb isLayoutRun (emitted s) = true →
  forallb isLayoutRun (emitted (run p evs s)) = true.
Proof.
  intros Hl. revert s. induction evs as [|ev evs IH]; intros s He; simpl; [done|].
  by apply IH, step_emitted_layout.
Qed.

End Emitted.

(** * The selection state machine, the adapter and the viewport: main results *)

(** C1 (amended).  A tap on a node [n] of the graph marks as highlighted
    the edges touching [n] and the nodes those edges touch, and as faded
    every element except [n] and the highlighted ones.  When [n] has an
    edge it is among the highlighted elements, so that highlighted is
    {n} + incidentEdges(n) + neighbors(n) and faded is everything else. *)
Theorem tap_node_marks p s n :
  interactive p = true → isNodeOf s n = true →
  let s' := step p s (Tap (OnElement (NodeId n))) in
  highlighted s' = incidentEdges s n ∪ neighbors s n ∧
  faded s' = allElements s ∖ ({[NodeId n]} ∪ highlighted s') ∧
  (incidentEdges s n ≠ ∅ →
   highlighted s' = {[NodeId n]} ∪ incidentEdges s n ∪ neighbors s n ∧
   faded s' = allElements s ∖ highlighted s').
Proof.
  intros Hi Hn. apply isNodeOf_data in Hn as (cy & d & Hcy & Hd).
  unfold step. rewrite Hi, dispatchTap_node, (onTapNode_node p n s cy d Hcy Hd).
  unfold highlighted, faded, allElements, incidentEdges, neighbors. rewrite Hcy. simpl.
  rewrite highlighted_tapElements, faded_tapElements. unfold Cy.elements.
  split; [done|]. split; [f_equal; set_solver|].
  intros Hne.
  assert (NodeId n ∈ dom (Cy.cy_elements cy)) as Hdom.
  { apply elem_of_dom. destruct (Cy.cy_elements cy !! NodeId n); [eauto | discriminate]. }
  pose proof (nodeId_in_neighbors _ n Hdom Hne). set_solver.
Qed.

Lemma tap_node_marks_witness :
  let s' := step abcProps abcState (Tap (OnElement (NodeId "A"))) in
  highlighted s' = incidentEdges abcState "A" ∪ neighbors abcState "A" ∧
  faded s' = allElements abcState ∖ ({[NodeId "A"]} ∪ highlighted s') ∧
  (incidentEdges abcState "A" ≠ ∅ →
   highlighted s' = {[NodeId "A"]} ∪ incidentEdges abcState "A" ∪ neighbors abcState "A" ∧
   faded s' = allElements abcState ∖ highlighted s').
Proof.
  apply (tap_node_marks abcProps abcState "A"); vm_compute; reflexivity.
Defined.

(** C1, as stated, fails on a node without edges: after the tap nothing
    is highlighted, not even the tapped node, and the faded elements are
    all the others. *)
Lemma tap_isolated_node_counterexample :
  let s' := step loneProps loneState (Tap (OnElement (NodeId "A"))) in
  isNodeOf loneState "A" = true ∧
  highlighted s' ≠
    {[NodeId "A"]} ∪ incidentEdges loneState "A" ∪ neighbors loneState "A" ∧
  faded s' ≠ allElements loneState ∖ highlighted s'.
Proof.
  simpl.
  assert (highlighted (step loneProps loneState (Tap (OnElement (NodeId "A")))) = ∅) as Eh
    by (vm_compute; reflexivity).
  assert (faded (step loneProps loneState (Tap (OnElement (NodeId "A")))) = {[NodeId "B"]}) as Ef
    by (vm_compute; reflexivity).
  assert (allElements loneState = {[NodeId "A"; NodeId "B"]}) as Ea
    by (vm_compute; reflexivity).
  split; [vm_compute; reflexivity|]. rewrite Eh, Ef, Ea. split.
  - intros H. assert (NodeId "A" ∈ (∅ : gset EleId)) by (rewrite H; set_solver).
    set_solver.
  - intros H. assert (NodeId "A" ∈ ({[NodeId "B"]} : gset EleId)) by (rewrite H; set_solver).
    set_solver.
Qed.

(** C2.  In every state reached from the mount by taps, pointer moves,
    button clicks and resets, highlighted and faded are disjoint; while a
    node is selected every element outside its closed neighbourhood is
    faded; while none is selected both sets are empty.  The node types
    are those of the data model: none of them reads as the class name
    [highlighted] or [faded]. *)
Theorem render_state_invariant r p s0 evs :
  noMarkTypes (nodes p) = true → mount r p = inr s0 →
  let s := run p evs s0 in
  highlighted s ∩ faded s = ∅ ∧
  (∀ d, selectedNode s = Some d →
        ∀ k, k ∈ allElements s → k ∉ closedNeighborhood s (nd_id d) → k ∈ faded s) ∧
  (selectedNode s = None → highlighted s = ∅ ∧ faded s = ∅).
Proof.
  intros Hm Hs0. simpl.
  pose proof (run_selectionInv p evs s0 (mount_selectionInv r p s0 Hm Hs0)) as Hinv.
  set (s := run p evs s0) in *. unfold selectionInv in Hinv.
  destruct (cyRef s) as [cy|] eqn:Hcy.
  - destruct Hinv as [_ Hinv]. destruct (selectedNode s) as [d|].
    + destruct Hinv as (_ & Hh & Hf). rewrite Hh, Hf. unfold closedNeighborhood.
      split; [set_solver|]. split; [|done].
      intros ? [= <-] k Hk Hn. set_solver.
    + destruct Hinv as [-> ->]. split; [set_solver|]. split; done.
  - unfold highlighted, faded. rewrite Hcy, Hinv.
    split; [set_solver|]. split; done.
Qed.

Lemma render_state_invariant_witness :
  let s := run abcProps [Tap (OnElement (NodeId "A")); ClickZoomIn] abcState in
  highlighted s ∩ faded s = ∅ ∧
  (∀ d, selectedNode s = Some d →
        ∀ k, k ∈ allElements s → k ∉ closedNeighborhood s (nd_id d) → k ∈ faded s) ∧
  (selectedNode s = None → highlighted s = ∅ ∧ faded s = ∅).
Proof.
  apply (render_state_invariant (Some flatRenderer) abcProps abcState
           [Tap (OnElement (NodeId "A")); ClickZoomIn]); vm_compute; reflexivity.
Defined.




(** C4.  Tapping the same node twice leaves the same RenderState as
    tapping it once, and the node stays selected: no toggle back to
    Idle. *)
Theorem reselect_idempotent p s n :
  let tap := Tap (OnElement (NodeId n)) in
  renderState (run p [tap; tap] s) = renderState (run p [tap] s) ∧
  (interactive p = true → isNodeOf s n = true →
   is_Some (selectedNodeId (renderState (run p [tap; tap] s)))).
Proof.
  simpl. unfold step. destruct (interactive p); [|split; [done|discriminate]].
  rewrite !dispatchTap_node.
  destruct (isNodeOf s n) eqn:Hn.
  2:{ rewrite !(onTapNode_other p n s Hn). split; [done|discriminate]. }
  apply isNodeOf_data in Hn as (cy & d & Hcy & Hd).
  destruct (tap_node_state p n s cy d Hcy Hd) as (H1 & H2 & H3 & H4 & H5 & H6 & H7 & H8).
  set (s1 := onTapNode p n s) in *.
  assert (Hd1 : Cy.ele_data <$> Cy.cy_elements
            (Cy.setElements (tapElements (Cy.cy_elements cy) n) cy) !! NodeId n
          = Some (Cy.NodeD d)).
  { simpl. by rewrite (sameData_tapElements (Cy.cy_elements cy) n (NodeId n)). }
  destruct (tap_node_state p n s1 _ d H1 Hd1) as (G1 & G2 & G3 & G4 & G5 & G6 & G7 & G8).
  split.
  - unfold renderState. rewrite G2, H2, G3, G4, H3, H4.
    unfold closedNeighborhood. by rewrite H5, H6, H7.
  - intros _ _. unfold renderState. simpl. rewrite G2. simpl. eauto.
Qed.

Lemma reselect_idempotent_witness :
  is_Some (selectedNodeId (renderState
    (run abcProps [Tap (OnElement (NodeId "B")); Tap (OnElement (NodeId "B"))] abcState))).
Proof.
  apply (proj2 (reselect_idempotent abcProps abcState "B")); vm_compute; reflexivity.
Defined.

(** C5.  Tapping a node of the graph and then the background leaves the
    exact Idle value: nothing highlighted, nothing faded, no node
    selected. *)
Theorem select_then_background_idle p s n :
  interactive p = true → isNodeOf s n = true →
  renderState (run p [Tap (OnElement (NodeId n)); Tap OnCore] s) = Idle.
Proof.
  intros Hi Hn. simpl. unfold step. rewrite Hi, dispatchTap_node. simpl.
  apply isNodeOf_data in Hn as (cy & d & Hcy & Hd).
  destruct (tap_node_state p n s cy d Hcy Hd) as (H1 & _).
  by eapply onTap_core_idle.
Qed.

Lemma select_then_background_idle_witness :
  renderState (run abcProps [Tap (OnElement (NodeId "A")); Tap OnCore] abcState) = Idle.
Proof.
  apply (select_then_background_idle abcProps abcState "A"); vm_compute; reflexivity.
Defined.

(** C6 (amended).  A tap on the background sends nothing out: the only
    callback of the component, [onNodeClick], is not called.  With the
    listeners registered and a graph mounted it leaves the Idle value. *)
Theorem background_tap_clears_silently p s :
  emitted (step p s (Tap OnCore)) = emitted s ∧
  (interactive p = true → is_Some (cyRef s) →
   renderState (step p s (Tap OnCore)) = Idle).
Proof.
  unfold step. simpl. split.
  - destruct (interactive p); [|done]. unfold onTap. by destruct (cyRef s).
  - intros -> [cy Hcy]. by eapply onTap_core_idle.
Qed.

Lemma background_tap_clears_silently_witness :
  renderState (step abcProps
    (run abcProps [Tap (OnElement (NodeId "A"))] abcState) (Tap OnCore)) = Idle.
Proof.
  apply (proj2 (background_tap_clears_silently abcProps
           (run abcProps [Tap (OnElement (NodeId "A"))] abcState)));
    [vm_compute; reflexivity | vm_compute; eauto].
Defined.

(** C6, as stated, fails: on the transition from Selected(A) to Idle the
    list of what was sent out does not grow. *)
Lemma background_tap_emits_nothing_counterexample :
  let s1 := run abcProps [Tap (OnElement (NodeId "A"))] abcState in
  let s2 := step abcProps s1 (Tap OnCore) in
  selectedNodeId (renderState s1) = Some "A" ∧
  renderState s2 = Idle ∧
  ¬ ∃ e, emitted s2 = (emitted s1 ++ [e])%list.
Proof.
  simpl. split; [vm_compute; reflexivity|]. split; [vm_compute; reflexivity|].
  intros [e H]. apply (f_equal List.length) in H. rewrite length_app in H.
  vm_compute in H. discriminate.
Qed.

(** C7.  From the mount on, whatever the taps, pointer moves, resets and
    clicks on zoom-in (factor 1.2) and zoom-out (factor 0.8), the zoom
    factor stays within [0.3, 3]: the library crops a level outside the
    bounds of the options instead of failing. *)
Theorem zoom_stays_in_range r p s0 evs :
  mount r p = inr s0 → forallb notFit evs = true →
  ∀ cy, cyRef (run p evs s0) = Some cy →
    (0.3 <=? Cy.cy_zoom cy)%float = true ∧ (Cy.cy_zoom cy <=? 3)%float = true.
Proof.
  intros Hs0 Hevs cy Hcy.
  pose proof (run_zoomBounded p evs s0 Hevs (mount_zoomBounded r p s0 Hs0)) as Hz.
  unfold zoomBounded in Hz. rewrite Hcy in Hz. destruct Hz as (_ & _ & Hz).
  unfold inRange in Hz. by apply andb_true_iff in Hz.
Qed.

Lemma zoom_stays_in_range_witness :
  ∃ cy, cyRef (run abcProps (repeat ClickZoomIn 8 ++ [ClickZoomOut]) abcState) = Some cy ∧
        (0.3 <=? Cy.cy_zoom cy)%float = true ∧ (Cy.cy_zoom cy <=? 3)%float = true.
Proof.
  destruct (cyRef (run abcProps (repeat ClickZoomIn 8 ++ [ClickZoomOut]) abcState))
    as [cy|] eqn:E; [|vm_compute in E; discriminate].
  exists cy. split; [reflexivity|].
  apply (zoom_stays_in_range (Some flatRenderer) abcProps abcState
           (repeat ClickZoomIn 8 ++ [ClickZoomOut]));
    [vm_compute; reflexivity | vm_compute; reflexivity | exact E].
Defined.



(** C9.  With an empty node list the effect creates no instance and runs
    no layout, the empty-state panel is drawn, and every button handler
    and every event leaves the state as it is. *)
Theorem empty_graph_is_inert r p evs :
  nodes p = [] →
  mount r p = inr initialState ∧
  cyRef initialState = None ∧
  emitted initialState = [] ∧
  emptyState (render p initialState) = true ∧
  handleZoomIn initialState = initialState ∧
  handleZoomOut initialState = initialState ∧
  handleFit initialState = initialState ∧
  handleReset initialState = initialState ∧
  run p evs initialState = initialState.
Proof.
  intros Hn. repeat split; try reflexivity.
  - unfold mount. rewrite Hn. by destruct r.
  - unfold render. simpl. by rewrite Hn.
  - by apply run_cyRef_None.
Qed.

Lemma empty_graph_is_inert_witness :
  let p := propsOf [] [] in
  mount (Some flatRenderer) p = inr initialState ∧
  cyRef initialState = None ∧
  emitted initialState = [] ∧
  emptyState (render p initialState) = true ∧
  handleZoomIn initialState = initialState ∧
  handleZoomOut initialState = initialState ∧
  handleFit initialState = initialState ∧
  handleReset initialState = initialState ∧
  run p [ClickZoomIn; ClickReset] initialState = initialState.
Proof.
  apply (empty_graph_is_inert (Some flatRenderer) (propsOf [] []) [ClickZoomIn; ClickReset]).
  reflexivity.
Defined.

(** C10.  In every state reached from the mount, the reset handler
    leaves the exact Idle value whatever was selected; when there is an
    instance it also asks for a new layout run from random positions. *)
Theorem reset_returns_idle r p s0 evs :
  mount r p = inr s0 →
  let s := run p evs s0 in
  renderState (handleReset s) = Idle ∧
  (is_Some (cyRef s) → emitted (handleReset s) = (emitted s ++ [LayoutRun true])%list).
Proof.
  intros Hs0. simpl. split.
  - destruct (mount_cases r p s0 Hs0) as [->|[cy Hcy]].
    + by rewrite run_cyRef_None.
    + destruct (run_cyRef_Some p evs s0 cy Hcy) as [cy' Hcy'].
      by eapply handleReset_idle.
  - intros [cy Hcy]. unfold handleReset. by rewrite Hcy.
Qed.

Lemma reset_returns_idle_witness :
  let s := run abcProps [Tap (OnElement (NodeId "B"))] abcState in
  renderState (handleReset s) = Idle ∧
  (is_Some (cyRef s) → emitted (handleReset s) = (emitted s ++ [LayoutRun true])%list).
Proof.
  apply (reset_returns_idle (Some flatRenderer) abcProps abcState
           [Tap (OnElement (NodeId "B"))]).
  vm_compute. reflexivity.
Defined.

(** * Further properties of the component and of the pages that use it *)

(** X1.  A tap on a node [n], in any state reached from the mount,
    selects the data of an input node whose id is [n]; with a listener
    [onNodeClick] is called once, with that id and that data, and without
    one nothing is sent out. *)
Theorem node_tap_notifies r p s0 evs n :
  mount r p = inr s0 → interactive p = true → isNodeOf (run p evs s0) n = true →
  let s := run p evs s0 in
  let s' := step p s (Tap (OnElement (NodeId n))) in
  ∃ g, g ∈ nodes p ∧ nd_id (n_data g) = n ∧
       selectedNode s' = Some (n_data g) ∧
       emitted s' = (emitted s ++
                     if onNodeClick p then [NodeClick n (n_data g)] else [])%list.
Proof.
  intros Hs0 Hi Hn. simpl.
  apply isNodeOf_data in Hn as (cy & d & Hcy & Hd).
  destruct (mount_cases r p s0 Hs0) as [->|[cy0 Hcy0]].
  { rewrite run_cyRef_None in Hcy by done. discriminate. }
  destruct (mount_instance r p s0 cy0 Hs0 Hcy0) as (defs & Hdefs & Hm & _).
  destruct (run_sameGraph p evs s0 cy0 Hcy0) as (cy' & Hcy' & Hsame).
  rewrite Hcy in Hcy'. injection Hcy' as <-.
  pose proof (nodesFrom_sameData (nodes p) _ _ Hsame) as Hfrom.
  rewrite Hm in Hfrom. specialize (Hfrom (createElements_nodesFrom _ _ _ Hdefs)).
  destruct (Cy.cy_elements cy !! NodeId n) as [e|] eqn:E; [|discriminate].
  destruct (Hfrom n e E) as (g & Hg & Hdata & Hid).
  simpl in Hd. rewrite Hdata in Hd. injection Hd as <-.
  exists g. split; [done|]. split; [done|].
  unfold step. rewrite Hi, dispatchTap_node.
  rewrite (onTapNode_node p n _ cy (n_data g) Hcy) by (by rewrite E; simpl; rewrite Hdata).
  rewrite Hid. destruct (onNodeClick p); simpl; [done|]. by rewrite app_nil_r.
Qed.

Lemma node_tap_notifies_witness :
  ∃ g, g ∈ nodes abcProps ∧ nd_id (n_data g) = "B" ∧
       selectedNode (step abcProps (run abcProps [ClickZoomIn] abcState)
                       (Tap (OnElement (NodeId "B")))) = Some (n_data g) ∧
       emitted (step abcProps (run abcProps [ClickZoomIn] abcState)
                  (Tap (OnElement (NodeId "B")))) =
       (emitted (run abcProps [ClickZoomIn] abcState) ++
        if onNodeClick abcProps then [NodeClick "B" (n_data g)] else [])%list.
Proof.
  apply (node_tap_notifies (Some flatRenderer) abcProps abcState [ClickZoomIn] "B");
    vm_compute; reflexivity.
Defined.

(** X2.  After a tap on a node [n] every element of the graph is
    highlighted, faded or [n] itself, no element is both highlighted and
    faded, and [n] is not faded. *)
Theorem tap_partitions_elements p s n :
  interactive p = true → isNodeOf s n = true →
  let s' := step p s (Tap (OnElement (NodeId n))) in
  highlighted s' ∪ faded s' ∪ {[NodeId n]} = allElements s' ∧
  highlighted s' ∩ faded s' = ∅ ∧
  NodeId n ∉ faded s'.
Proof.
  intros Hi Hn. simpl. unfold step. rewrite Hi, dispatchTap_node.
  apply isNodeOf_data in Hn as (cy & d & Hcy & Hd).
  destruct (tap_node_state p n s cy d Hcy Hd) as (H1 & H2 & H3 & H4 & H5 & H6 & H7 & H8).
  rewrite H3, H4, H7. unfold closedNeighborhood.
  assert (NodeId n ∈ allElements s) as Hin.
  { unfold allElements, Cy.elements. rewrite Hcy. apply elem_of_dom.
    destruct (Cy.cy_elements cy !! NodeId n); [eauto | discriminate]. }
  assert (incidentEdges s n ⊆ allElements s) as HE.
  { unfold incidentEdges, allElements. rewrite Hcy. apply connectedEdges_subseteq. }
  assert (neighbors s n ⊆ allElements s) as HN.
  { unfold neighbors, allElements. rewrite Hcy. apply connectedNodes_subseteq. }
  split; [|split; set_solver].
  apply set_eq. intros k. destruct (decide (k ∈ incidentEdges s n ∪ neighbors s n));
    destruct (decide (k = NodeId n)); set_solver.
Qed.

Lemma tap_partitions_elements_witness :
  let s' := step loneProps loneState (Tap (OnElement (NodeId "A"))) in
  highlighted s' ∪ faded s' ∪ {[NodeId "A"]} = allElements s' ∧
  highlighted s' ∩ faded s' = ∅ ∧
  NodeId "A" ∉ faded s'.
Proof.
  apply (tap_partitions_elements loneProps loneState "A"); vm_compute; reflexivity.
Defined.

(** X3.  The marks after a tap on a node do not depend on what happened
    before: after any events, a tap on a node [n] of the graph leaves the
    RenderState that the same tap leaves on the state before them. *)
Theorem last_tap_wins p s evs n :
  interactive p = true → isNodeOf s n = true →
  renderState (run p (evs ++ [Tap (OnElement (NodeId n))]) s) =
  renderState (run p [Tap (OnElement (NodeId n))] s).
Proof.
  intros Hi Hn. unfold run. rewrite fold_left_app. simpl. fold (run p evs s).
  unfold step. rewrite Hi, !dispatchTap_node.
  apply isNodeOf_data in Hn as (cy & d & Hcy & Hd).
  destruct (run_sameGraph p evs s cy Hcy) as (cy' & Hcy' & Hsame).
  assert (Hd' : Cy.ele_data <$> Cy.cy_elements cy' !! NodeId n = Some (Cy.NodeD d))
    by (by rewrite (Hsame _)).
  destruct (tap_node_state p n s cy d Hcy Hd) as (_ & H2 & H3 & H4 & _).
  destruct (tap_node_state p n _ cy' d Hcy' Hd') as (_ & G2 & G3 & G4 & _).
  unfold renderState. rewrite H2, H3, H4, G2, G3, G4.
  unfold closedNeighborhood, incidentEdges, neighbors, allElements, Cy.elements.
  rewrite Hcy, Hcy'.
  rewrite (sameData_connectedEdges _ _ n Hsame), (sameData_connectedNodes _ _ _ Hsame),
    (sameData_dom _ _ Hsame). reflexivity.
Qed.

Lemma last_tap_wins_witness :
  renderState (run abcProps ([Tap (OnElement (NodeId "B")); ClickReset] ++
                             [Tap (OnElement (NodeId "A"))]) abcState) =
  renderState (run abcProps [Tap (OnElement (NodeId "A"))] abcState).
Proof.
  apply (last_tap_wins abcProps abcState [Tap (OnElement (NodeId "B")); ClickReset] "A");
    vm_compute; reflexivity.
Defined.

(** X4.  Pointer moves over nodes never change the RenderState, the
    viewport or what is sent out; over a faded node the pointer shape is
    left as it is, over any other node of the graph it becomes
    [pointer]. *)
Theorem hover_keeps_render_state p s n :
  let over := step p s (MouseOver n) in
  let out := step p s (MouseOut n) in
  (renderState over = renderState s ∧ viewport over = viewport s ∧
   emitted over = emitted s) ∧
  (renderState out = renderState s ∧ viewport out = viewport s ∧
   emitted out = emitted s) ∧
  (NodeId n ∈ faded s → cursor over = cursor s) ∧
  (interactive p = true → isNodeOf s n = true → NodeId n ∉ faded s →
   cursor over = "pointer").
Proof.
  simpl. unfold step, onMouseOver, onMouseOut, isNodeOf, Cy.hasNode, faded.
  destruct (interactive p); [|repeat split; try done; discriminate].
  destruct (cyRef s) as [cy|] eqn:Hcy; [|repeat split; try done; discriminate].
  destruct (Cy.cy_elements cy !! NodeId n) as [e|] eqn:E.
  2:{ repeat split; try done; discriminate. }
  assert (Hf : NodeId n ∈ Cy.withClass "faded" (Cy.cy_elements cy) ↔
               "faded" ∈ Cy.ele_classes e).
  { rewrite elem_of_withClass. split; [intros (e' & He' & H); congruence | eauto]. }
  split; [|split; [|split]].
  - destruct (_ && _); unfold renderState, highlighted, faded, viewport; simpl;
      by rewrite ?Hcy.
  - destruct (Cy.isNode e); unfold renderState, highlighted, faded, viewport; simpl;
      by rewrite ?Hcy.
  - intros Hin. apply Hf in Hin.
    rewrite (bool_decide_eq_true_2 _ Hin), andb_false_r. done.
  - intros _ Hnode Hnot. rewrite Hnode.
    rewrite bool_decide_eq_false_2 by (by rewrite <- Hf). done.
Qed.

Lemma hover_keeps_render_state_witness :
  cursor (step abcProps (run abcProps [Tap (OnElement (NodeId "A"))] abcState)
            (MouseOver "B")) = "pointer".
Proof.
  apply (proj2 (proj2 (proj2 (hover_keeps_render_state abcProps
           (run abcProps [Tap (OnElement (NodeId "A"))] abcState) "B"))));
    [vm_compute; reflexivity | vm_compute; reflexivity |].
  intros H.
  assert (faded (run abcProps [Tap (OnElement (NodeId "A"))] abcState)
          = {[EdgeId 1; NodeId "C"]}) as E by (vm_compute; reflexivity).
  rewrite E in H. set_solver.
Defined.





(** X7.  Events never add, remove or alter an element of the graph:
    after any events the elements, the edges touching each node and the
    nodes they touch are those of the state before. *)
Theorem events_keep_graph p s evs :
  is_Some (cyRef s) →
  allElements (run p evs s) = allElements s ∧
  ∀ n, incidentEdges (run p evs s) n = incidentEdges s n ∧
       neighbors (run p evs s) n = neighbors s n ∧
       isNodeOf (run p evs s) n = isNodeOf s n.
Proof.
  intros [cy Hcy]. destruct (run_sameGraph p evs s cy Hcy) as (cy' & Hcy' & Hsame).
  unfold allElements, incidentEdges, neighbors, isNodeOf, Cy.elements.
  rewrite Hcy, Hcy'. split; [by apply sameData_dom|]. intros n.
  rewrite (sameData_connectedEdges _ _ n Hsame), (sameData_connectedNodes _ _ _ Hsame),
    (hasNode_sameData _ _ n Hsame). done.
Qed.

Lemma events_keep_graph_witness :
  allElements (run abcProps [Tap (OnElement (NodeId "A")); ClickReset] abcState)
  = allElements abcState.
Proof.
  apply (proj1 (events_keep_graph abcProps abcState
           [Tap (OnElement (NodeId "A")); ClickReset] (ltac:(vm_compute; eauto)))).
Defined.




